(** * Online notepad: the note store of [src/App.tsx]

    A shallow embedding of the state that the [App] component keeps in its
    [useState] cells and of the event handlers that update it, followed by
    the properties of the note collection, the undo/redo stacks, the lock
    gate and the filter/sort pipeline.

    Conventions of the embedding.
    - A JavaScript string is a [string]; its characters stand for UTF-16
      code units.
    - An optional field ([favorite?], [isLocked?], [password?], ...) is an
      [option]; [None] is [undefined].
    - A [Date] is the integer of its [getTime()], in milliseconds; the clock
      readings ([new Date()], [Date.now()]) are arguments of the handlers.
    - An array is a [list]; the undo and redo stacks keep their top at the
      END of the list, as the source does ([stack[stack.length - 1]],
      [slice(0, -1)], [[...prev, x]]).
    - A handler is a function from the state of the render it was created in
      to an [outcome]: the next state, or a [TypeError] thrown after the
      state updates queued so far. The setters of one handler write distinct
      cells or are functional updates, so threading the state through them
      is what React's batching computes.
    - [showStatus] also arms a two-second timer that clears the message;
      the timer is not part of the model. *)

From Stdlib Require Import List String Ascii ZArith Bool Lia DecimalString.
From Stdlib Require Import Permutation Sorted.
Import ListNotations.

Local Open Scope string_scope.
Local Open Scope list_scope.

(** ** Data model *)

Record Format := mkFormat {
  bold : list bool;
  italic : list bool;
  underline : list bool
}.

Module Note.
Record t := mk {
  id : string;
  title : string;
  content : string;
  lastModified : Z;
  favorite : option bool;
  tags : list string;
  format : Format;
  isLocked : option bool;
  password : option string;
  isArchived : option bool;
  version : option Z;
  history : option (list string)
}.
End Note.

Inductive SortOption := modified | byTitle | created | archived.
Inductive SortDirection := asc | desc.

(** The [useState] cells of [App] that the modelled handlers read or
    write ([isDarkMode] and [lastSaved] only feed the presentation). *)
Record State := mkState {
  notes : list Note.t;
  activeNoteId : string;
  statusMessage : string;
  searchQuery : string;
  selectedTags : list string;
  sortOption : SortOption;
  sortDirection : SortDirection;
  newTag : string;
  password : string;
  undoStack : list string;
  redoStack : list string
}.

Inductive outcome :=
| Done (s : State)
| Thrown (s : State).

Definition state_of (o : outcome) : State :=
  match o with Done s => s | Thrown s => s end.

Definition bind (o : outcome) (k : State -> outcome) : outcome :=
  match o with Done s => k s | Thrown s => Thrown s end.

Notation "o >>= k" := (bind o k) (at level 50, left associativity).

(** ** JavaScript values *)

(** Truthiness of an optional boolean: [undefined] and [false] are falsy. *)
Definition truthy (b : option bool) : bool :=
  match b with Some true => true | _ => false end.

(** [v || 1] on an optional number: [undefined] and [0] are falsy. *)
Definition orOne (v : option Z) : Z :=
  match v with
  | Some n => if Z.eqb n 0 then 1%Z else n
  | None => 1%Z
  end.

(** A [number] is a double. The numbers of the model are integers; [Z]
    also holds the integers that are no double, which no field ever holds.
    [roundNumber z] is the double nearest to the integer [z], a tie going
    to the neighbour with the even 53-bit significand; the integers up to
    2^53 in absolute value are doubles themselves. (The sums of the model
    add 1 to a double, which does not overflow.) *)
Definition two53 : Z := 9007199254740992.

Definition roundNumber (z : Z) : Z :=
  let a := Z.abs z in
  if Z.ltb a two53 then z
  else
    let e := (Z.log2 a - 52)%Z in
    let q := (a / 2 ^ e)%Z in
    let r := (a mod 2 ^ e)%Z in
    let half := (2 ^ (e - 1))%Z in
    let m := if Z.ltb r half then q
             else if Z.ltb half r then (q + 1)%Z
             else if Z.even q then q else (q + 1)%Z in
    (Z.sgn z * (m * 2 ^ e))%Z.

(** [x + y] on numbers: the exact sum, rounded. *)
Definition numberAdd (x y : Z) : Z := roundNumber (x + y).

(** [h || []] on an optional array: every array is truthy. *)
Definition orEmpty (h : option (list string)) : list string :=
  match h with Some l => l | None => [] end.

(** [s || d] on a string: only the empty string is falsy. *)
Definition orString (s d : string) : string :=
  match s with EmptyString => d | _ => s end.

Definition LF : ascii := ascii_of_nat 10.

(** [s.split('\n')[0]]: the characters before the first line feed. *)
Fixpoint firstLine (s : string) : string :=
  match s with
  | EmptyString => EmptyString
  | String c s' => if Ascii.eqb c LF then EmptyString else String c (firstLine s')
  end.

(** [s.includes(sub)]. *)
Fixpoint includes (s sub : string) : bool :=
  if prefix sub s then true
  else match s with
       | EmptyString => false
       | String _ s' => includes s' sub
       end.

(** [arr.includes(x)] on an array of strings. *)
Definition Array_includes (arr : list string) (x : string) : bool :=
  existsb (String.eqb x) arr.

(** [arr.sort(cmp)]: the sort is stable (ECMAScript 2019); [x] goes before
    [y] when [cmp x y] is negative, after it when positive, and keeps its
    place when it is zero. For a comparator that is not a consistent
    ordering the language leaves the order to the engine; the model then
    computes what a stable insertion from the right gives. *)
Section Sort.
Context {A : Type} (cmp : A -> A -> Z).

Fixpoint insert (x : A) (l : list A) : list A :=
  match l with
  | [] => [x]
  | y :: l' => if Z.leb (cmp x y) 0 then x :: l else y :: insert x l'
  end.

Fixpoint Array_sort (l : list A) : list A :=
  match l with
  | [] => []
  | x :: l' => insert x (Array_sort l')
  end.
End Sort.

(** ** State setters *)

Definition setNotes (v : list Note.t) (s : State) : State :=
  mkState v (activeNoteId s) (statusMessage s) (searchQuery s) (selectedTags s)
          (sortOption s) (sortDirection s) (newTag s) (password s)
          (undoStack s) (redoStack s).

Definition setActiveNoteId (v : string) (s : State) : State :=
  mkState (notes s) v (statusMessage s) (searchQuery s) (selectedTags s)
          (sortOption s) (sortDirection s) (newTag s) (password s)
          (undoStack s) (redoStack s).

Definition setStatusMessage (v : string) (s : State) : State :=
  mkState (notes s) (activeNoteId s) v (searchQuery s) (selectedTags s)
          (sortOption s) (sortDirection s) (newTag s) (password s)
          (undoStack s) (redoStack s).

Definition setPassword (v : string) (s : State) : State :=
  mkState (notes s) (activeNoteId s) (statusMessage s) (searchQuery s)
          (selectedTags s) (sortOption s) (sortDirection s) (newTag s) v
          (undoStack s) (redoStack s).

Definition setUndoStack (v : list string) (s : State) : State :=
  mkState (notes s) (activeNoteId s) (statusMessage s) (searchQuery s)
          (selectedTags s) (sortOption s) (sortDirection s) (newTag s)
          (password s) v (redoStack s).

Definition setRedoStack (v : list string) (s : State) : State :=
  mkState (notes s) (activeNoteId s) (statusMessage s) (searchQuery s)
          (selectedTags s) (sortOption s) (sortDirection s) (newTag s)
          (password s) (undoStack s) v.

Definition showStatus (message : string) (s : State) : State :=
  setStatusMessage message s.

(** ** The active note *)

Definition isId (i : string) (note : Note.t) : bool :=
  String.eqb (Note.id note) i.

(** [notes.find(note => note.id === activeNoteId) || notes[0]]; [None] is
    the [undefined] of an empty collection. *)
Definition activeNote (s : State) : option Note.t :=
  match find (isId (activeNoteId s)) (notes s) with
  | Some note => Some note
  | None => hd_error (notes s)
  end.

(** ** Content edits and the undo/redo stacks *)

(** The object that [updateNote] builds for the note it replaces. *)
Definition withContent (now : Z) (content : string) (note : Note.t) : Note.t :=
  Note.mk (Note.id note)
          (orString (substring 0 50 (firstLine content)) "Untitled")
          content
          now
          (Note.favorite note)
          (Note.tags note)
          (Note.format note)
          (Note.isLocked note)
          (Note.password note)
          (Note.isArchived note)
          (Some (numberAdd (orOne (Note.version note)) 1))
          (Some (orEmpty (Note.history note) ++ [Note.content note])).

(** The [updatedNotes] of [updateNote]. *)
Definition replaced (now : Z) (content : string) (s : State) : list Note.t :=
  map (fun note => if isId (activeNoteId s) note
                   then withContent now content note
                   else note)
      (notes s).

Definition updateNote (now : Z) (content : string) (addToHistory : bool)
    (s : State) : outcome :=
  (if addToHistory then
     match activeNote s with
     | Some a => Done (setRedoStack [] (setUndoStack (undoStack s ++ [Note.content a]) s))
     | None => Thrown s
     end
   else Done s) >>= fun s1 =>
  Done (setNotes (replaced now content s) s1).

Definition handleUndo (now : Z) (s : State) : outcome :=
  match undoStack s with
  | [] => Done s
  | _ :: _ =>
      match activeNote s with
      | None => Thrown s
      | Some a =>
          let previousContent := last (undoStack s) "" in
          let currentContent := Note.content a in
          updateNote now previousContent false
            (setRedoStack (redoStack s ++ [currentContent])
               (setUndoStack (removelast (undoStack s)) s))
          >>= fun s' => Done (showStatus "Undo" s')
      end
  end.

Definition handleRedo (now : Z) (s : State) : outcome :=
  match redoStack s with
  | [] => Done s
  | _ :: _ =>
      match activeNote s with
      | None => Thrown s
      | Some a =>
          let nextContent := last (redoStack s) "" in
          let currentContent := Note.content a in
          updateNote now nextContent false
            (setUndoStack (undoStack s ++ [currentContent])
               (setRedoStack (removelast (redoStack s)) s))
          >>= fun s' => Done (showStatus "Redo" s')
      end
  end.

(** The editor's [onChange]: [updateNote(e.target.value)]. *)
Definition edit (now : Z) (newContent : string) (s : State) : outcome :=
  updateNote now newContent true s.

(** ** Collection and lifecycle *)

Definition freshFormat : Format := mkFormat [false] [false] [false].

(** The note of [createNewNote]; [stamp] is the reading of [Date.now()] and
    [now] that of [new Date()]. *)
Definition newNote (stamp now : Z) : Note.t :=
  Note.mk (NilZero.string_of_int (Z.to_int stamp)) "New Note" "" now
          None [] freshFormat None None None (Some 1%Z) (Some []).

Definition createNewNote (stamp now : Z) (s : State) : outcome :=
  Done (showStatus "New note created"
          (setActiveNoteId (Note.id (newNote stamp now))
             (setNotes (notes s ++ [newNote stamp now]) s))).

(** The welcome note that seeds an empty storage. *)
Definition welcomeNote (now : Z) (text : string) : Note.t :=
  Note.mk "1" "Welcome Note" text now (Some true) ["welcome"] freshFormat
          None None None (Some 1%Z) (Some []).

Definition locked (note : Note.t) (pw : string) : Note.t :=
  Note.mk (Note.id note) (Note.title note) (Note.content note)
          (Note.lastModified note) (Note.favorite note) (Note.tags note)
          (Note.format note)
          (Some (negb (truthy (Note.isLocked note))))
          (if negb (truthy (Note.isLocked note)) then Some pw else None)
          (Note.isArchived note) (Note.version note) (Note.history note).

Definition toggleLock (i : string) (s : State) : outcome :=
  match password s with
  | EmptyString => Done (showStatus "Please enter a password first" s)
  | _ =>
      let updatedNotes :=
        map (fun note => if isId i note then locked note (password s) else note)
            (notes s) in
      Done (showStatus
              (if truthy (match find (isId i) updatedNotes with
                          | Some n => Note.isLocked n
                          | None => None
                          end)
               then "Note locked" else "Note unlocked")
              (setNotes updatedNotes s))
  end.

Definition archived_toggled (note : Note.t) : Note.t :=
  Note.mk (Note.id note) (Note.title note) (Note.content note)
          (Note.lastModified note) (Note.favorite note) (Note.tags note)
          (Note.format note) (Note.isLocked note) (Note.password note)
          (Some (negb (truthy (Note.isArchived note))))
          (Note.version note) (Note.history note).

Definition toggleArchive (i : string) (s : State) : outcome :=
  let updatedNotes :=
    map (fun note => if isId i note then archived_toggled note else note)
        (notes s) in
  Done (showStatus
          (if truthy (match find (isId i) updatedNotes with
                      | Some n => Note.isArchived n
                      | None => None
                      end)
           then "Note archived" else "Note unarchived")
          (setNotes updatedNotes s)).

Definition favorite_toggled (note : Note.t) : Note.t :=
  Note.mk (Note.id note) (Note.title note) (Note.content note)
          (Note.lastModified note)
          (Some (negb (truthy (Note.favorite note))))
          (Note.tags note) (Note.format note) (Note.isLocked note)
          (Note.password note) (Note.isArchived note)
          (Note.version note) (Note.history note).

Definition toggleFavorite (i : string) (s : State) : outcome :=
  let updatedNotes :=
    map (fun note => if isId i note then favorite_toggled note else note)
        (notes s) in
  Done (showStatus
          (if truthy (match find (isId i) updatedNotes with
                      | Some n => Note.favorite n
                      | None => None
                      end)
           then "Added to favorites" else "Removed from favorites")
          (setNotes updatedNotes s)).

Definition deleteNote (i : string) (s : State) : outcome :=
  if Nat.eqb (List.length (notes s)) 1 then
    Done (showStatus "Cannot delete the last note" s)
  else
    let updatedNotes := filter (fun note => negb (isId i note)) (notes s) in
    match updatedNotes with
    | [] => Thrown (setNotes updatedNotes s)
    | first :: _ =>
        Done (showStatus "Note deleted"
                (setActiveNoteId (Note.id first) (setNotes updatedNotes s)))
    end.

(** ** The lock gate *)

(** [note.isLocked && note.password !== password]: the stored password is
    compared with the candidate typed in the password box; an [undefined]
    stored password differs from every candidate. *)
Definition gated (note : Note.t) (candidate : string) : bool :=
  truthy (Note.isLocked note) &&
  match Note.password note with
  | Some p => negb (String.eqb p candidate)
  | None => true
  end.

(** The [onClick] of a row of the note list. *)
Definition selectNote (note : Note.t) (s : State) : outcome :=
  if gated note (password s) then
    Done (showStatus "Please enter the correct password" s)
  else Done (setActiveNoteId (Note.id note) s).

(** The [disabled] attribute of the editor. *)
Definition editorDisabled (s : State) : option bool :=
  option_map (fun a => gated a (password s)) (activeNote s).

(** ** Query pipeline *)

(** The built-ins the pipeline calls are taken as they come from the
    engine: [toLowerCase] and [localeCompare] depend on Unicode data and on
    the locale, [parseInt] yields [None] for [NaN]. *)
Section Query.
Variable toLowerCase : string -> string.
Variable localeCompare : string -> string -> Z.
Variable parseInt : string -> option Z.

Definition passes (s : State) (note : Note.t) : bool :=
  let searchLower := toLowerCase (searchQuery s) in
  let titleMatch := includes (toLowerCase (Note.title note)) searchLower in
  let contentMatch := includes (toLowerCase (Note.content note)) searchLower in
  let tagMatch :=
    Nat.eqb (List.length (selectedTags s)) 0 ||
    forallb (fun tag => Array_includes (Note.tags note) tag) (selectedTags s) in
  (titleMatch || contentMatch) && tagMatch.

(** The value of [comparison] after the [switch]; [None] is [NaN]. *)
Definition comparison (o : SortOption) (a b : Note.t) : option Z :=
  match o with
  | modified => Some (Note.lastModified b - Note.lastModified a)%Z
  | byTitle => Some (localeCompare (Note.title a) (Note.title b))
  | created =>
      match parseInt (Note.id a), parseInt (Note.id b) with
      | Some x, Some y => Some (x - y)%Z
      | _, _ => None
      end
  | archived =>
      Some ((if truthy (Note.isArchived b) then 1 else 0)
            - (if truthy (Note.isArchived a) then 1 else 0))%Z
  end.

(** The comparator handed to [sort]; a [NaN] result counts as zero. *)
Definition compareNotes (o : SortOption) (d : SortDirection)
    (a b : Note.t) : Z :=
  match comparison o a b with
  | Some c => match d with desc => c | asc => (- c)%Z end
  | None => 0%Z
  end.

Definition filteredNotes (s : State) : list Note.t :=
  let filtered := filter (passes s) (notes s) in
  Array_sort (compareNotes (sortOption s) (sortDirection s)) filtered.
End Query.

(** ** ASCII instances of the built-ins *)

Definition lowerAscii (c : ascii) : ascii :=
  let n := nat_of_ascii c in
  if Nat.leb 65 n && Nat.leb n 90 then ascii_of_nat (n + 32) else c.

Fixpoint mapString (f : ascii -> ascii) (s : string) : string :=
  match s with
  | EmptyString => EmptyString
  | String c s' => String (f c) (mapString f s')
  end.

(** [toLowerCase] on ASCII text. *)
Definition asciiLower (s : string) : string := mapString lowerAscii s.

Fixpoint lexCompare (key : ascii -> nat) (a b : string) : Datatypes.comparison :=
  match a, b with
  | EmptyString, EmptyString => Eq
  | EmptyString, String _ _ => Lt
  | String _ _, EmptyString => Gt
  | String x a', String y b' =>
      match Nat.compare (key x) (key y) with
      | Eq => lexCompare key a' b'
      | c => c
      end
  end.

(** [localeCompare] on ASCII letters: letters are compared without regard
    to case first; between strings that differ only in case the one with
    the earlier lower-case letter comes first. *)
Definition asciiLocaleCompare (a b : string) : Z :=
  match lexCompare (fun c => nat_of_ascii (lowerAscii c)) a b with
  | Lt => (-1)%Z
  | Gt => 1%Z
  | Eq =>
      match lexCompare (fun c => nat_of_ascii c) b a with
      | Lt => (-1)%Z
      | Gt => 1%Z
      | Eq => 0%Z
      end
  end.

Definition digitValue (c : ascii) : option Z :=
  let n := nat_of_ascii c in
  if Nat.leb 48 n && Nat.leb n 57 then Some (Z.of_nat (n - 48)) else None.

Fixpoint digitsFrom (acc : option Z) (s : string) : option Z :=
  match s with
  | EmptyString => acc
  | String c s' =>
      match digitValue c with
      | Some d => digitsFrom (Some (10 * match acc with Some a => a | None => 0 end + d)%Z) s'
      | None => acc
      end
  end.

(** [parseInt] on an unsigned decimal prefix, the shape of the identifiers
    the application makes ("1" and [Date.now().toString()]). *)
Definition decimalParseInt (s : string) : option Z := digitsFrom None s.

(** Running a list of edits, each with its clock reading. *)
Fixpoint edits (es : list (Z * string)) (s : State) : outcome :=
  match es with
  | [] => Done s
  | (now, newContent) :: es' => edit now newContent s >>= edits es'
  end.

(** The states after each step of a list of lock toggles; a step types a
    candidate into the password box and clicks the lock button of a note. *)
Fixpoint lockTrace (steps : list (string * string)) (s : State) : list State :=
  match steps with
  | [] => []
  | (i, candidate) :: rest =>
      let s' := state_of (toggleLock i (setPassword candidate s)) in
      s' :: lockTrace rest s'
  end.

(** The data-model invariant on the lock fields of a note. *)
Definition lockInv (note : Note.t) : Prop :=
  Note.password note <> None <-> Note.isLocked note = Some true.

(** A note with its lock fields forgotten, a state with every note so and
    an empty password box. *)
Definition unlocked (note : Note.t) : Note.t :=
  Note.mk (Note.id note) (Note.title note) (Note.content note)
          (Note.lastModified note) (Note.favorite note) (Note.tags note)
          (Note.format note) None None
          (Note.isArchived note) (Note.version note) (Note.history note).

Definition forgetLocks (s : State) : State :=
  setPassword "" (setNotes (map unlocked (notes s)) s).

Definition onState (f : State -> State) (o : outcome) : outcome :=
  match o with Done s => Done (f s) | Thrown s => Thrown (f s) end.

(** The test of the [filter] in [deleteNote]. *)
Definition kept (i : string) (note : Note.t) : bool := negb (isId i note).

(** The [updatedNotes] of [toggleLock] with the candidate [pw]. *)
Definition relocked (i pw : string) (l : list Note.t) : list Note.t :=
  map (fun note => if isId i note then locked note pw else note) l.

(** [sub] occurs in [s]. *)
Definition occursIn (sub s : string) : Prop :=
  exists before after : string, s = (before ++ sub ++ after)%string.

(** ** Example states *)

Definition plainNote (i t c : string) (v : Z) (h : list string) : Note.t :=
  Note.mk i t c 0%Z None [] freshFormat None None None (Some v) (Some h).

Definition baseState (ns : list Note.t) (a : string) : State :=
  mkState ns a "" "" [] modified desc "" "" [] [].

(** One note whose content went from "a" to "b" by one edit. *)
Definition editedOnce : State :=
  setUndoStack ["a"] (baseState [plainNote "1" "b" "b" 2 ["a"]] "1").


(** Three notes, the second one active. *)
Definition threeNotes : State :=
  baseState [plainNote "1" "one" "one" 1 []; plainNote "2" "two" "two" 1 [];
             plainNote "3" "three" "three" 1 []] "2".

(** The three titles of the sorting example, title key, ascending. *)
Definition fruit : State :=
  mkState [plainNote "1" "Banana" "" 1 []; plainNote "2" "Apple" "" 1 [];
           plainNote "3" "cherry" "" 1 []]
          "1" "" "" [] byTitle asc "" "" [] [].

(** The same notes with the direction [desc]. *)
Definition fruitDesc : State :=
  mkState (notes fruit) "1" "" "" [] byTitle desc "" "" [] [].

(** [cmp] puts [a] strictly before [b]. *)
Definition ordersBefore (cmp : string -> string -> Z) (a b : string) : Prop :=
  (cmp a b < 0)%Z /\ (0 < cmp b a)%Z.

(** Two tagged notes, a search for "LIST" and the selected tags A and B. *)
Definition noteAB : Note.t :=
  Note.mk "1" "Shopping list" "milk" 0%Z None ["B"; "x"; "A"] freshFormat
          None None None (Some 1%Z) (Some []).

Definition noteA : Note.t :=
  Note.mk "2" "Reading list" "books" 0%Z None ["A"] freshFormat
          None None None (Some 1%Z) (Some []).

Definition tagged : State :=
  mkState [noteA; noteAB] "1" "" "LIST" ["A"; "B"] modified desc "" "" [] [].

(** A note locked with the password "secret". *)
Definition lockedNote : Note.t :=
  Note.mk "7" "diary" "diary" 0%Z None [] freshFormat (Some true)
          (Some "secret") None (Some 1%Z) (Some []).

Definition withLocked : State :=
  setPassword "guess" (baseState [plainNote "1" "one" "one" 1 []; lockedNote] "1").

(** ** The claims as the specification words them, where the code differs *)

(** "undo/redo apply content changes without touching version/history". *)
Definition undo_keeps_version_history (now : Z) (s : State) : Prop :=
  forall s', handleUndo now s = Done s' ->
    option_map Note.version (activeNote s') = option_map Note.version (activeNote s)
    /\ option_map Note.history (activeNote s') = option_map Note.history (activeNote s).


(** "[the active pointer] is left pointing at the same note if the deleted
    note was not the active note". *)
Definition delete_keeps_other_active (i : string) (s : State) : Prop :=
  2 <= List.length (notes s) -> i <> activeNoteId s ->
  forall s', deleteNote i s = Done s' -> activeNoteId s' = activeNoteId s.

(** ** The remaining setters and inline handlers *)

Definition setNewTag (v : string) (s : State) : State :=
  mkState (notes s) (activeNoteId s) (statusMessage s) (searchQuery s)
          (selectedTags s) (sortOption s) (sortDirection s) v (password s)
          (undoStack s) (redoStack s).

Definition setSearchQuery (v : string) (s : State) : State :=
  mkState (notes s) (activeNoteId s) (statusMessage s) v (selectedTags s)
          (sortOption s) (sortDirection s) (newTag s) (password s)
          (undoStack s) (redoStack s).

Definition setSelectedTags (v : list string) (s : State) : State :=
  mkState (notes s) (activeNoteId s) (statusMessage s) (searchQuery s) v
          (sortOption s) (sortDirection s) (newTag s) (password s)
          (undoStack s) (redoStack s).

Definition setSortOption (v : SortOption) (s : State) : State :=
  mkState (notes s) (activeNoteId s) (statusMessage s) (searchQuery s)
          (selectedTags s) v (sortDirection s) (newTag s) (password s)
          (undoStack s) (redoStack s).

Definition setSortDirection (v : SortDirection) (s : State) : State :=
  mkState (notes s) (activeNoteId s) (statusMessage s) (searchQuery s)
          (selectedTags s) (sortOption s) v (newTag s) (password s)
          (undoStack s) (redoStack s).

(** The [onClick] of the direction button:
    [setSortDirection(prev => prev === 'asc' ? 'desc' : 'asc')]. *)
Definition toggleSortDirection (s : State) : State :=
  setSortDirection (match sortDirection s with asc => desc | desc => asc end) s.

(** The [onClick] of a tag of the tag bar: [setSelectedTags(prev =>
    prev.includes(tag) ? prev.filter(t => t !== tag) : [...prev, tag])]. *)
Definition toggleSelectedTag (tag : string) (s : State) : State :=
  setSelectedTags
    (if Array_includes (selectedTags s) tag
     then filter (fun t => negb (String.eqb t tag)) (selectedTags s)
     else selectedTags s ++ [tag])
    s.

(** ** Tags *)

(** [{ ...note, tags }]. *)
Definition withTags (tags : list string) (note : Note.t) : Note.t :=
  Note.mk (Note.id note) (Note.title note) (Note.content note)
          (Note.lastModified note) (Note.favorite note) tags
          (Note.format note) (Note.isLocked note) (Note.password note)
          (Note.isArchived note) (Note.version note) (Note.history note).

Definition addTag (s : State) : outcome :=
  match newTag s with
  | EmptyString => Done s
  | _ =>
      match activeNote s with
      | None => Thrown s
      | Some a =>
          if Array_includes (Note.tags a) (newTag s) then Done s
          else
            let updatedNotes :=
              map (fun note => if isId (activeNoteId s) note
                               then withTags (Note.tags note ++ [newTag s]) note
                               else note)
                  (notes s) in
            Done (showStatus "Tag added" (setNewTag "" (setNotes updatedNotes s)))
      end
  end.

Definition removeTag (tagToRemove : string) (s : State) : outcome :=
  let updatedNotes :=
    map (fun note => if isId (activeNoteId s) note
                     then withTags (filter (fun tag => negb (String.eqb tag tagToRemove))
                                           (Note.tags note)) note
                     else note)
        (notes s) in
  Done (showStatus "Tag removed" (setNotes updatedNotes s)).

(** [tagSet.add(tag)] on a set kept in insertion order. *)
Definition setAdd (acc : list string) (tag : string) : list string :=
  if Array_includes acc tag then acc else acc ++ [tag].

(** The comparison of the default [sort()]: strings by their code units. *)
Definition codeUnitCompare (a b : string) : Z :=
  match lexCompare nat_of_ascii a b with
  | Lt => (-1)%Z
  | Eq => 0%Z
  | Gt => 1%Z
  end.

Definition allTags (s : State) : list string :=
  let tagSet := fold_left setAdd (flat_map Note.tags (notes s)) [] in
  Array_sort codeUnitCompare tagSet.

(** ** Formats *)

Inductive FormatType := typeBold | typeItalic | typeUnderline.

(** [format[type]]. *)
Definition formatOf (type : FormatType) (f : Format) : list bool :=
  match type with
  | typeBold => bold f
  | typeItalic => italic f
  | typeUnderline => underline f
  end.

(** [{ ...format, [type]: v }]. *)
Definition withFormatOf (type : FormatType) (v : list bool) (f : Format) : Format :=
  match type with
  | typeBold => mkFormat v (italic f) (underline f)
  | typeItalic => mkFormat (bold f) v (underline f)
  | typeUnderline => mkFormat (bold f) (italic f) v
  end.

(** The note that [toggleFormat] builds; [arr[0]] of an empty array is
    [undefined], which negates to [true]. *)
Definition format_toggled (type : FormatType) (note : Note.t) : Note.t :=
  Note.mk (Note.id note) (Note.title note) (Note.content note)
          (Note.lastModified note) (Note.favorite note) (Note.tags note)
          (withFormatOf type
             [negb (truthy (hd_error (formatOf type (Note.format note))))]
             (Note.format note))
          (Note.isLocked note) (Note.password note)
          (Note.isArchived note) (Note.version note) (Note.history note).

Definition toggleFormat (type : FormatType) (s : State) : outcome :=
  Done (setNotes
          (map (fun note => if isId (activeNoteId s) note
                            then format_toggled type note
                            else note)
               (notes s))
          s).

(** ** Counters and the download name *)

(** The code units below 256 that [\s] and [trim] treat as white space:
    tab, line feed, vertical tab, form feed, carriage return, space and
    no-break space. *)
Definition isWhiteSpace (c : ascii) : bool :=
  let n := nat_of_ascii c in
  (Nat.leb 9 n && Nat.leb n 13) || Nat.eqb n 32 || Nat.eqb n 160.

Fixpoint trimStart (s : string) : string :=
  match s with
  | EmptyString => EmptyString
  | String c s' => if isWhiteSpace c then trimStart s' else s
  end.

Fixpoint trimEnd (s : string) : string :=
  match s with
  | EmptyString => EmptyString
  | String c s' =>
      match trimEnd s' with
      | EmptyString => if isWhiteSpace c then EmptyString else String c EmptyString
      | t => String c t
      end
  end.

(** [s.trim()]. *)
Definition trim (s : string) : string := trimEnd (trimStart s).

(** [s.split(/\s+/)]: the pieces between the maximal runs of white space;
    [inGap] tells that the previous character was white space. The result
    always has a first piece, which is empty when [s] is empty or starts
    with white space. *)
Fixpoint splitWhiteSpace (inGap : bool) (s : string) : list string :=
  match s with
  | EmptyString => [EmptyString]
  | String c s' =>
      if isWhiteSpace c then
        if inGap then splitWhiteSpace true s'
        else EmptyString :: splitWhiteSpace true s'
      else
        match splitWhiteSpace false s' with
        | piece :: rest => String c piece :: rest
        | [] => [String c EmptyString]
        end
  end.

Definition getWordCount (text : string) : nat :=
  List.length
    (filter (fun word => Nat.ltb 0 (String.length word))
            (splitWhiteSpace false (trim text))).

Definition getCharacterCount (text : string) : nat := String.length text.

(** The number of maximal runs of characters that are not white space;
    [afterSpace] tells that a word would start at the next character. *)
Fixpoint wordRuns (afterSpace : bool) (s : string) : nat :=
  match s with
  | EmptyString => 0
  | String c s' =>
      if isWhiteSpace c then wordRuns true s'
      else (if afterSpace then 1 else 0) + wordRuns false s'
  end.

Definition isAlnum (c : ascii) : bool :=
  let n := nat_of_ascii c in
  (Nat.leb 48 n && Nat.leb n 57) || (Nat.leb 65 n && Nat.leb n 90)
  || (Nat.leb 97 n && Nat.leb n 122).

(** [title.replace(/[^a-z0-9]/gi, '_').toLowerCase()]; after the
    replacement only ASCII letters, digits and underscores are left, on
    which [toLowerCase] is [asciiLower]. *)
Definition sanitized (title : string) : string :=
  asciiLower (mapString (fun c => if isAlnum c then c else "_"%char) title).

(** The [download] attribute of [downloadNote]; [iso] is the reading of
    [new Date().toISOString()]. *)
Definition downloadName (s : State) (iso : string) : option string :=
  option_map
    (fun a => (sanitized (Note.title a) ++ "-" ++ substring 0 10 iso ++ ".txt")%string)
    (activeNote s).

(** The characters a download name keeps from a title. *)
Definition fileChar (c : ascii) : bool :=
  let n := nat_of_ascii c in
  (Nat.leb 48 n && Nat.leb n 57) || (Nat.leb 97 n && Nat.leb n 122)
  || Nat.eqb n 95.

(** ** The component as a transition system *)

(** The state of the first render on an empty storage. *)
Definition initialState (now : Z) (text : string) : State :=
  mkState [welcomeNote now text] "1" "" "" [] modified desc "" "" [] [].

(** One event of the user interface that leaves the component rendered:
    a handler that completes, or the timer of [showStatus] clearing the
    message. A row that is clicked shows a note of the collection. *)
Inductive step : State -> State -> Prop :=
| step_create stamp now s s' :
    createNewNote stamp now s = Done s' -> step s s'
| step_delete i s s' :
    deleteNote i s = Done s' -> step s s'
| step_select note s s' :
    In note (notes s) -> selectNote note s = Done s' -> step s s'
| step_edit now newContent s s' :
    edit now newContent s = Done s' -> step s s'
| step_undo now s s' :
    handleUndo now s = Done s' -> step s s'
| step_redo now s s' :
    handleRedo now s = Done s' -> step s s'
| step_lock i s s' :
    toggleLock i s = Done s' -> step s s'
| step_archive i s s' :
    toggleArchive i s = Done s' -> step s s'
| step_favorite i s s' :
    toggleFavorite i s = Done s' -> step s s'
| step_format type s s' :
    toggleFormat type s = Done s' -> step s s'
| step_addTag s s' :
    addTag s = Done s' -> step s s'
| step_removeTag tag s s' :
    removeTag tag s = Done s' -> step s s'
| step_password v s : step s (setPassword v s)
| step_newTag v s : step s (setNewTag v s)
| step_search v s : step s (setSearchQuery v s)
| step_selectTag tag s : step s (toggleSelectedTag tag s)
| step_sortOption v s : step s (setSortOption v s)
| step_sortDirection s : step s (toggleSortDirection s)
| step_status message s : step s (showStatus message s).

Inductive reachable (s0 : State) : State -> Prop :=
| reachable_refl : reachable s0 s0
| reachable_step s s' : reachable s0 s -> step s s' -> reachable s0 s'.

(** What every note the application makes or updates satisfies: the lock
    invariant, a version that is one more than the length of the history
    (up to 2^53, where adding one to a double no longer changes it), and
    one-element format arrays. *)
Definition wellFormed (note : Note.t) : Prop :=
  lockInv note /\
  (exists h, Note.history note = Some h /\
             Note.version note
             = Some (Z.min (1 + Z.of_nat (List.length h)) two53)) /\
  (exists b i u, Note.format note = mkFormat [b] [i] [u]).

Definition Inv (s : State) : Prop :=
  (exists note, In note (notes s) /\ Note.id note = activeNoteId s) /\
  Forall wellFormed (notes s).

(** Running a list of undos, each with its clock reading. *)
Fixpoint undos (nows : list Z) (s : State) : outcome :=
  match nows with
  | [] => Done s
  | now :: nows' => handleUndo now s >>= undos nows'
  end.

(** [note] is archived, as the sort reads the flag. *)
Definition isArchivedNote (note : Note.t) : bool := truthy (Note.isArchived note).

(** The fields of a note that a content replacement leaves alone. *)
Definition keptByUpdate (note : Note.t) :=
  (Note.id note, Note.favorite note, Note.tags note, Note.format note,
   Note.isLocked note, Note.password note, Note.isArchived note).


(** The frame of a collection update: same notes in the same places as
    far as the fields of [keptByUpdate] go, and the notes that the active
    pointer does not name untouched. *)
Definition updateFrame (s : State) (after : list Note.t) : Prop :=
  List.length after = List.length (notes s) /\
  map keptByUpdate after = map keptByUpdate (notes s) /\
  (forall k note, nth_error (notes s) k = Some note ->
                  Note.id note <> activeNoteId s ->
                  nth_error after k = Some note).


(** The order that [codeUnitCompare] decides. *)
Definition codeUnitLe (a b : string) : Prop := (codeUnitCompare a b <= 0)%Z.

(** ** Handlers of an earlier render *)

(** The key listener is registered anew only after a render in which
    [activeNoteId], [undoStack] or [redoStack] changed (the dependencies of
    its effect). Until then Ctrl+N, Ctrl+B/I/U, Ctrl+Z and Ctrl+Y run the
    handlers of the render [r] in which it was registered: what these read
    ([notes], [activeNote], [activeNoteId], the stacks) is what [r] had,
    and the collection they hand to [setNotes] is built from the notes of
    [r]; only the functional updates of the stacks apply to the stacks of
    the current state [s]. [listens r s] is what the listener's render and
    the current state are then known to share. The buttons and the editor
    run the handlers of the current render, [r = s]. *)
Definition listens (r s : State) : Prop :=
  activeNoteId r = activeNoteId s /\
  undoStack r = undoStack s /\
  redoStack r = redoStack s.

Definition updateNoteIn (r : State) (now : Z) (content : string)
    (addToHistory : bool) (s : State) : outcome :=
  (if addToHistory then
     match activeNote r with
     | Some a => Done (setRedoStack [] (setUndoStack (undoStack s ++ [Note.content a]) s))
     | None => Thrown s
     end
   else Done s) >>= fun s1 =>
  Done (setNotes (replaced now content r) s1).

Definition handleUndoIn (r : State) (now : Z) (s : State) : outcome :=
  match undoStack r with
  | [] => Done s
  | _ :: _ =>
      match activeNote r with
      | None => Thrown s
      | Some a =>
          let previousContent := last (undoStack r) "" in
          let currentContent := Note.content a in
          updateNoteIn r now previousContent false
            (setRedoStack (redoStack s ++ [currentContent])
               (setUndoStack (removelast (undoStack s)) s))
          >>= fun s' => Done (showStatus "Undo" s')
      end
  end.

Definition handleRedoIn (r : State) (now : Z) (s : State) : outcome :=
  match redoStack r with
  | [] => Done s
  | _ :: _ =>
      match activeNote r with
      | None => Thrown s
      | Some a =>
          let nextContent := last (redoStack r) "" in
          let currentContent := Note.content a in
          updateNoteIn r now nextContent false
            (setUndoStack (undoStack s ++ [currentContent])
               (setRedoStack (removelast (redoStack s)) s))
          >>= fun s' => Done (showStatus "Redo" s')
      end
  end.

Definition createNewNoteIn (r : State) (stamp now : Z) (s : State) : outcome :=
  Done (showStatus "New note created"
          (setActiveNoteId (Note.id (newNote stamp now))
             (setNotes (notes r ++ [newNote stamp now]) s))).


(** ** More example states *)

Definition filedNote (i : string) (modifiedAt : Z) (flag : option bool) : Note.t :=
  Note.mk i i i modifiedAt None [] freshFormat None None flag (Some 1%Z) (Some []).

(** Three notes modified at 5, 9 and 2. *)
Definition dated : State :=
  baseState [filedNote "1" 5 None; filedNote "2" 9 None; filedNote "3" 2 None] "1".

(** Four notes, the second and the fourth archived, sorted by [archived]. *)
Definition shelved : State :=
  setSortOption archived
    (baseState [filedNote "1" 0 None; filedNote "2" 0 (Some true);
                filedNote "3" 0 (Some false); filedNote "4" 0 (Some true)] "1").

(** Notes with numeric ids, and notes with ids of which [parseInt] makes
    [NaN], sorted by [created]. *)
Definition numbered : State :=
  setSortOption created
    (baseState [filedNote "30" 0 None; filedNote "4" 0 None;
                filedNote "200" 0 None] "30").

Definition named : State :=
  setSortOption created
    (baseState [filedNote "gamma" 0 None; filedNote "alpha" 0 None;
                filedNote "beta" 0 None] "gamma").

(** The state of [withLocked] with the locked note active and "old" on the
    undo stack, and an earlier render of it in which the note was not yet
    locked. *)
Definition lockedActive : State :=
  setUndoStack ["old"] (setActiveNoteId "7" withLocked).

Definition beforeLock : State :=
  setPassword ""
    (setNotes [plainNote "1" "one" "one" 1 []; unlocked lockedNote] lockedActive).

(** * Properties *)

(** ** Lists and strings *)

Lemma find_map_same {A} (p : A -> bool) (f : A -> A) (l : list A) :
  (forall x, p (f x) = p x) ->
  find p (map f l) = option_map f (find p l).
Proof.
  intros Hp. induction l as [|x l IH]; simpl; [reflexivity|].
  rewrite Hp. destruct (p x); [reflexivity | exact IH].
Qed.

Lemma hd_error_map {A B} (f : A -> B) (l : list A) :
  hd_error (map f l) = option_map f (hd_error l).
Proof. destruct l; reflexivity. Qed.

Lemma find_none_hd {A} (p : A -> bool) (l : list A) (x : A) :
  find p l = None -> hd_error l = Some x -> p x = false.
Proof.
  destruct l as [|y l]; simpl; [discriminate|].
  destruct (p y) eqn:E; [discriminate|]. intros _ [= <-]. exact E.
Qed.

Lemma snoc_not_nil {A} (l : list A) (x : A) : l ++ [x] <> [].
Proof. destruct l; discriminate. Qed.

(** ** State cells *)

Lemma isId_withContent i now c note :
  isId i (withContent now c note) = isId i note.
Proof. reflexivity. Qed.

Lemma updateNote_silent now c s :
  updateNote now c false s = Done (setNotes (replaced now c s) s).
Proof. reflexivity. Qed.

Lemma updateNote_logged now c s a :
  activeNote s = Some a ->
  updateNote now c true s =
  Done (setNotes (replaced now c s)
          (setRedoStack [] (setUndoStack (undoStack s ++ [Note.content a]) s))).
Proof. intros H. unfold updateNote. rewrite H. reflexivity. Qed.

(** The active note after the collection was [replaced]: the replaced note
    when the pointer names a note, the untouched first note otherwise. *)
Lemma activeNote_replaced now c s s' a :
  activeNote s = Some a ->
  notes s' = replaced now c s ->
  activeNoteId s' = activeNoteId s ->
  activeNote s' =
  Some (if isId (activeNoteId s) a then withContent now c a else a).
Proof.
  unfold activeNote, replaced. intros Ha Hn Hi. rewrite Hn, Hi.
  rewrite find_map_same.
  2:{ intros x. destruct (isId (activeNoteId s) x) eqn:E;
      [rewrite isId_withContent|]; exact E. }
  destruct (find (isId (activeNoteId s)) (notes s)) as [n|] eqn:F.
  - injection Ha as <-. simpl.
    apply find_some in F. destruct F as [_ F]. rewrite F. reflexivity.
  - simpl. rewrite hd_error_map, Ha. simpl.
    rewrite (find_none_hd _ _ _ F Ha). reflexivity.
Qed.


Lemma activeNote_of_nth s k note :
  nth_error (notes s) k = Some note -> exists a, activeNote s = Some a.
Proof.
  unfold activeNote. destruct (find _ _); [eauto|].
  destruct (notes s); [destruct k; discriminate | simpl; eauto].
Qed.

Lemma handleUndo_step now s a :
  undoStack s <> [] -> activeNote s = Some a ->
  handleUndo now s =
  Done (showStatus "Undo"
          (setNotes (replaced now (last (undoStack s) "") s)
             (setRedoStack (redoStack s ++ [Note.content a])
                (setUndoStack (removelast (undoStack s)) s)))).
Proof.
  intros Hu Ha. unfold handleUndo. rewrite Ha.
  destruct (undoStack s); [contradiction | reflexivity].
Qed.

Lemma handleRedo_step now s a :
  redoStack s <> [] -> activeNote s = Some a ->
  handleRedo now s =
  Done (showStatus "Redo"
          (setNotes (replaced now (last (redoStack s) "") s)
             (setUndoStack (undoStack s ++ [Note.content a])
                (setRedoStack (removelast (redoStack s)) s)))).
Proof.
  intros Hu Ha. unfold handleRedo. rewrite Ha.
  destruct (redoStack s); [contradiction | reflexivity].
Qed.

Lemma isId_own (s : State) (a : Note.t) :
  Note.id a = activeNoteId s -> isId (activeNoteId s) a = true.
Proof. intros H. unfold isId. rewrite H. apply String.eqb_refl. Qed.

(** ** Undo, redo and the version log *)

(** ** Numbers *)

Lemma roundNumber_exact (z : Z) :
  (- two53 <= z <= two53)%Z -> roundNumber z = z.
Proof.
  intros H. unfold roundNumber.
  destruct (Z.ltb_spec (Z.abs z) two53) as [_|Hge]; [reflexivity|].
  assert (E : z = two53 \/ z = (- two53)%Z) by lia.
  destruct E as [-> | ->]; reflexivity.
Qed.

Lemma numberAdd_one (v : Z) :
  (- two53 <= v < two53)%Z -> numberAdd v 1 = (v + 1)%Z.
Proof. intros H. apply roundNumber_exact. lia. Qed.

(** At 2^53 adding one gives 2^53 again. *)
Lemma numberAdd_one_saturated : numberAdd two53 1 = two53.
Proof. reflexivity. Qed.

(** The specification's wording of C1 fails: after one edit from "a" to
    "b", undo restores "a" but the note's version goes from 2 to 3 and its
    history from ["a"] to ["a"; "b"]. *)
Lemma undo_touches_version_history :
  undoStack editedOnce <> [] /\ ~ undo_keeps_version_history 0 editedOnce.
Proof.
  split; [discriminate|].
  intros H. destruct (H _ eq_refl) as [Hv _]. vm_compute in Hv.
  discriminate Hv.
Qed.

(** C1, on the code: with the active pointer on an existing note, [undo] on
    a non-empty undo stack pops the top snapshot into the active note and
    pushes the replaced content on the redo stack, and [redo] on a
    non-empty redo stack does the same with the stacks exchanged; although
    both call [updateNote] with [addToHistory] false, which only skips the
    stack updates, the note's version gets one added (an absent or zero
    version counting as 1) and its history gets the replaced content
    appended, exactly as for an [edit]. An [edit] also pushes the replaced
    content on the undo stack and empties the redo stack. The addition is
    the one of doubles, exact below 2^53. *)
Theorem undo_redo_log_like_edit (now : Z) (s : State) (a : Note.t) :
  activeNote s = Some a ->
  Note.id a = activeNoteId s ->
  (undoStack s <> [] ->
   exists s' a',
     handleUndo now s = Done s' /\ activeNote s' = Some a' /\
     Note.content a' = last (undoStack s) "" /\
     Note.version a' = Some (numberAdd (orOne (Note.version a)) 1) /\
     Note.history a' = Some (orEmpty (Note.history a) ++ [Note.content a]) /\
     undoStack s' = removelast (undoStack s) /\
     redoStack s' = redoStack s ++ [Note.content a])
  /\
  (redoStack s <> [] ->
   exists s' a',
     handleRedo now s = Done s' /\ activeNote s' = Some a' /\
     Note.content a' = last (redoStack s) "" /\
     Note.version a' = Some (numberAdd (orOne (Note.version a)) 1) /\
     Note.history a' = Some (orEmpty (Note.history a) ++ [Note.content a]) /\
     redoStack s' = removelast (redoStack s) /\
     undoStack s' = undoStack s ++ [Note.content a])
  /\
  (forall newContent,
   exists s' a',
     edit now newContent s = Done s' /\ activeNote s' = Some a' /\
     Note.content a' = newContent /\
     Note.version a' = Some (numberAdd (orOne (Note.version a)) 1) /\
     Note.history a' = Some (orEmpty (Note.history a) ++ [Note.content a]) /\
     undoStack s' = undoStack s ++ [Note.content a] /\
     redoStack s' = [])
  /\
  ((- two53 <= orOne (Note.version a) < two53)%Z ->
   numberAdd (orOne (Note.version a)) 1 = (orOne (Note.version a) + 1)%Z).
Proof.
  intros Ha Hid. pose proof (isId_own s a Hid) as Hown.
  assert (Hact : forall c s', notes s' = replaced now c s ->
                 activeNoteId s' = activeNoteId s ->
                 activeNote s' = Some (withContent now c a)).
  { intros c s' Hn Hi. rewrite (activeNote_replaced now c s s' a Ha Hn Hi).
    rewrite Hown. reflexivity. }
  split; [|split; [|split]].
  - intros Hu. rewrite (handleUndo_step now s a Hu Ha).
    eexists. exists (withContent now (last (undoStack s) "") a).
    split; [reflexivity|]. split; [apply Hact; reflexivity|].
    repeat split.
  - intros Hr. rewrite (handleRedo_step now s a Hr Ha).
    eexists. exists (withContent now (last (redoStack s) "") a).
    split; [reflexivity|]. split; [apply Hact; reflexivity|].
    repeat split.
  - intros c. unfold edit. rewrite (updateNote_logged now c s a Ha).
    eexists. exists (withContent now c a).
    split; [reflexivity|]. split; [apply Hact; reflexivity|].
    repeat split.
  - apply numberAdd_one.
Qed.

(** At the state after one edit from "a" to "b": undo takes the version
    from 2 to 3 and the history from ["a"] to ["a"; "b"]. *)
Lemma undo_redo_log_like_edit_witness :
  (option_map Note.version (activeNote editedOnce) = Some (Some 2%Z) /\
   option_map Note.history (activeNote editedOnce) = Some (Some ["a"]))
  /\
  exists s' a',
    handleUndo 0 editedOnce = Done s' /\ activeNote s' = Some a' /\
    Note.content a' = "a" /\
    Note.version a' = Some 3%Z /\
    Note.history a' = Some ["a"; "b"] /\
    undoStack s' = [] /\
    redoStack s' = ["b"].
Proof.
  split; [split; reflexivity|].
  exact (proj1 (undo_redo_log_like_edit 0 editedOnce
                  (plainNote "1" "b" "b" 2 ["a"]) eq_refl eq_refl)
               ltac:(discriminate)).
Defined.

(** C6: whenever there is an active note, [undo] on a non-empty undo stack
    followed at once by [redo] leaves the active note with the content it
    had before the undo, and [redo] on a non-empty redo stack followed at
    once by [undo] leaves it with the content it had before the redo. *)
Theorem undo_redo_restores_content (now1 now2 : Z) (s : State) (a : Note.t) :
  activeNote s = Some a ->
  (undoStack s <> [] ->
   exists s1 s2 a2,
     handleUndo now1 s = Done s1 /\ handleRedo now2 s1 = Done s2 /\
     activeNote s2 = Some a2 /\ Note.content a2 = Note.content a)
  /\
  (redoStack s <> [] ->
   exists s1 s2 a2,
     handleRedo now1 s = Done s1 /\ handleUndo now2 s1 = Done s2 /\
     activeNote s2 = Some a2 /\ Note.content a2 = Note.content a).
Proof.
  intros Ha. split.
  - intros Hu. rewrite (handleUndo_step now1 s a Hu Ha).
    eexists. eexists. eexists. split; [reflexivity|].
    match goal with |- handleRedo _ ?s1 = _ /\ _ => set (st1 := s1) end.
    assert (Ha1 : activeNote st1 =
                  Some (if isId (activeNoteId s) a
                        then withContent now1 (last (undoStack s) "") a else a))
      by (apply activeNote_replaced; [exact Ha | reflexivity | reflexivity]).
    assert (Hr1 : redoStack st1 <> []) by apply snoc_not_nil.
    rewrite (handleRedo_step now2 st1 _ Hr1 Ha1).
    split; [reflexivity|]. split.
    + apply activeNote_replaced; [exact Ha1 | reflexivity | reflexivity].
    + cbn [showStatus setStatusMessage setNotes setRedoStack setUndoStack
           redoStack undoStack activeNoteId].
      rewrite last_last.
      destruct (isId (activeNoteId s) a) eqn:E;
        [rewrite isId_withContent, E | rewrite E]; reflexivity.
  - intros Hr. rewrite (handleRedo_step now1 s a Hr Ha).
    eexists. eexists. eexists. split; [reflexivity|].
    match goal with |- handleUndo _ ?s1 = _ /\ _ => set (st1 := s1) end.
    assert (Ha1 : activeNote st1 =
                  Some (if isId (activeNoteId s) a
                        then withContent now1 (last (redoStack s) "") a else a))
      by (apply activeNote_replaced; [exact Ha | reflexivity | reflexivity]).
    assert (Hu1 : undoStack st1 <> []) by apply snoc_not_nil.
    rewrite (handleUndo_step now2 st1 _ Hu1 Ha1).
    split; [reflexivity|]. split.
    + apply activeNote_replaced; [exact Ha1 | reflexivity | reflexivity].
    + cbn [showStatus setStatusMessage setNotes setRedoStack setUndoStack
           redoStack undoStack activeNoteId].
      rewrite last_last.
      destruct (isId (activeNoteId s) a) eqn:E;
        [rewrite isId_withContent, E | rewrite E]; reflexivity.
Qed.

Lemma undo_redo_restores_content_witness :
  exists s1 s2 a2,
    handleUndo 3 editedOnce = Done s1 /\ handleRedo 4 s1 = Done s2 /\
    activeNote s2 = Some a2 /\ Note.content a2 = "b".
Proof.
  exact (proj1 (undo_redo_restores_content 3 4 editedOnce
                  (plainNote "1" "b" "b" 2 ["a"]) eq_refl)
               ltac:(discriminate)).
Defined.

Lemma orOne_positive (v : Z) : (1 <= v)%Z -> orOne (Some v) = v.
Proof.
  intros H. unfold orOne. destruct (Z.eqb_spec v 0); [lia | reflexivity].
Qed.





(** ** Deletion *)

Lemma isId_spec i note : isId i note = true <-> Note.id note = i.
Proof. unfold isId. apply String.eqb_eq. Qed.

Lemma kept_spec i note : kept i note = true <-> Note.id note <> i.
Proof.
  unfold kept. rewrite negb_true_iff, <- not_true_iff_false, isId_spec.
  reflexivity.
Qed.

Lemma deleteNote_many i s :
  2 <= List.length (notes s) ->
  deleteNote i s =
  match filter (kept i) (notes s) with
  | [] => Thrown (setNotes [] s)
  | first :: rest =>
      Done (showStatus "Note deleted"
              (setActiveNoteId (Note.id first) (setNotes (first :: rest) s)))
  end.
Proof.
  intros H. unfold deleteNote.
  destruct (Nat.eqb_spec (List.length (notes s)) 1) as [E|_]; [lia|].
  fold (kept i). destruct (filter (kept i) (notes s)); reflexivity.
Qed.

Lemma filter_kept_length i (l : list Note.t) :
  NoDup (map Note.id l) -> In i (map Note.id l) ->
  S (List.length (filter (kept i) l)) = List.length l.
Proof.
  induction l as [|x l IH]; simpl; [contradiction|].
  intros Hnd Hin. inversion Hnd as [|? ? Hx Hl]; subst.
  destruct (kept i x) eqn:K.
  - simpl. f_equal. apply IH; [exact Hl|].
    destruct Hin as [E|Hin]; [|exact Hin].
    apply kept_spec in K. contradiction.
  - f_equal.
    assert (E : Note.id x = i).
    { unfold kept in K. apply negb_false_iff in K. apply isId_spec, K. }
    subst i. clear IH Hin K Hnd Hl.
    induction l as [|y l IH]; simpl; [reflexivity|].
    destruct (kept (Note.id x) y) eqn:K.
    + simpl. f_equal. apply IH. intros H. apply Hx. right. exact H.
    + exfalso. apply Hx. left.
      unfold kept in K. apply negb_false_iff in K. apply isId_spec, K.
Qed.

(** C3, as the specification words it, fails: with notes 1, 2, 3 and note
    2 active, deleting note 3 moves the pointer to note 1. *)
Lemma delete_moves_pointer_off_active :
  ~ delete_keeps_other_active "3" threeNotes.
Proof.
  intros H.
  assert (E : "1" = "2").
  { apply (H ltac:(simpl; lia) ltac:(discriminate) _ eq_refl). }
  discriminate E.
Qed.

(** C3, amended: in a collection of at least two notes, a delete that leaves
    some note behind always moves the active pointer to the first of the
    remaining notes, in insertion order, whether or not the deleted note was
    the active one; that note is then the active note. *)
Theorem deleteNote_activates_first (i : string) (s : State) :
  2 <= List.length (notes s) ->
  (exists other, In other (notes s) /\ Note.id other <> i) ->
  exists s' first rest,
    deleteNote i s = Done s' /\
    filter (kept i) (notes s) = first :: rest /\
    notes s' = first :: rest /\
    activeNoteId s' = Note.id first /\
    activeNote s' = Some first.
Proof.
  intros Hlen (other & Hin & Hne).
  rewrite (deleteNote_many i s Hlen).
  destruct (filter (kept i) (notes s)) as [|first rest] eqn:F.
  - exfalso.
    assert (Hk : In other (filter (kept i) (notes s)))
      by (apply filter_In; split; [exact Hin | apply kept_spec, Hne]).
    rewrite F in Hk. exact Hk.
  - eexists. exists first, rest. split; [reflexivity|].
    repeat split.
    unfold activeNote. cbn [showStatus setStatusMessage setActiveNoteId setNotes
                            notes activeNoteId find].
    unfold isId. rewrite String.eqb_refl. reflexivity.
Qed.

Lemma deleteNote_activates_first_witness :
  exists s' first rest,
    deleteNote "3" threeNotes = Done s' /\
    filter (kept "3") (notes threeNotes) = first :: rest /\
    notes s' = first :: rest /\
    activeNoteId s' = Note.id first /\
    activeNote s' = Some first.
Proof.
  apply (deleteNote_activates_first "3" threeNotes).
  - simpl. lia.
  - exists (plainNote "1" "one" "one" 1 []). split.
    + left. reflexivity.
    + discriminate.
Defined.

(** C4: a delete on a collection of exactly one note is refused and leaves
    the state as it was but for the status message; on a collection of two
    or more notes it leaves exactly the notes whose id differs from the
    deleted one, the same records in the same order, and with unique ids
    and a present id that is one note fewer and the delete completes. *)
Theorem deleteNote_removes_exactly (i : string) (s : State) :
  (List.length (notes s) = 1 ->
   deleteNote i s = Done (showStatus "Cannot delete the last note" s) /\
   notes (state_of (deleteNote i s)) = notes s /\
   activeNoteId (state_of (deleteNote i s)) = activeNoteId s)
  /\
  (2 <= List.length (notes s) ->
   notes (state_of (deleteNote i s)) = filter (kept i) (notes s) /\
   (forall note, In note (notes (state_of (deleteNote i s))) <->
                 In note (notes s) /\ Note.id note <> i) /\
   (NoDup (map Note.id (notes s)) -> In i (map Note.id (notes s)) ->
    S (List.length (notes (state_of (deleteNote i s)))) = List.length (notes s) /\
    exists s', deleteNote i s = Done s')).
Proof.
  split.
  - intros H. unfold deleteNote. rewrite H. simpl. auto.
  - intros H.
    assert (Hn : notes (state_of (deleteNote i s)) = filter (kept i) (notes s)).
    { rewrite (deleteNote_many i s H).
      destruct (filter (kept i) (notes s)); reflexivity. }
    split; [exact Hn|]. split.
    + intros note. rewrite Hn, filter_In, kept_spec. reflexivity.
    + intros Hnd Hin. pose proof (filter_kept_length i (notes s) Hnd Hin) as L.
      split; [rewrite Hn; exact L|].
      rewrite (deleteNote_many i s H).
      destruct (filter (kept i) (notes s)); [simpl in L; lia | eauto].
Qed.

Lemma deleteNote_removes_exactly_witness :
  (deleteNote "1" (baseState [plainNote "1" "one" "one" 1 []] "1") =
   Done (showStatus "Cannot delete the last note"
           (baseState [plainNote "1" "one" "one" 1 []] "1")))
  /\
  notes (state_of (deleteNote "2" threeNotes)) =
  [plainNote "1" "one" "one" 1 []; plainNote "3" "three" "three" 1 []].
Proof.
  split.
  - apply (proj1 (deleteNote_removes_exactly "1"
                    (baseState [plainNote "1" "one" "one" 1 []] "1"))).
    reflexivity.
  - apply (proj2 (deleteNote_removes_exactly "2" threeNotes)).
    simpl. lia.
Defined.

(** ** The lock *)

Lemma toggleLock_rejected i s :
  password s = "" ->
  toggleLock i s = Done (showStatus "Please enter a password first" s).
Proof. intros H. unfold toggleLock. rewrite H. reflexivity. Qed.

Lemma toggleLock_notes i s :
  password s <> "" ->
  exists msg, toggleLock i s = Done (showStatus msg (setNotes (relocked i (password s) (notes s)) s)).
Proof.
  intros H. unfold toggleLock.
  destruct (password s) eqn:E; [contradiction|]. eexists. reflexivity.
Qed.

Lemma lockInv_locked note pw : pw <> "" -> lockInv (locked note pw).
Proof.
  intros _. unfold lockInv, locked. cbn [Note.password Note.isLocked].
  destruct (truthy (Note.isLocked note)); simpl; split; congruence.
Qed.

Lemma lockInv_step i candidate s :
  Forall lockInv (notes s) ->
  Forall lockInv (notes (state_of (toggleLock i (setPassword candidate s)))).
Proof.
  intros H. destruct candidate as [|c cs].
  - rewrite toggleLock_rejected by reflexivity. exact H.
  - destruct (toggleLock_notes i (setPassword (String c cs) s)) as [msg ->];
      [discriminate|].
    cbn [state_of showStatus setStatusMessage setNotes setPassword notes password].
    unfold relocked. apply Forall_map. revert H. apply Forall_impl.
    intros note Hn. destruct (isId i note); [|exact Hn].
    apply lockInv_locked. discriminate.
Qed.

(** C5: from a collection whose notes have a password exactly when they
    are locked (every note the application makes starts so), the same holds
    of every note after every step of any sequence of lock toggles, whatever
    the notes and the candidate passwords of the steps. A toggle with an
    empty candidate is refused: the collection, hence [isLocked] and
    [password] of every note, stay as they were. A toggle with a non-empty
    candidate leaves the toggled note with a password exactly when it is
    locked, whatever its lock fields were before. *)
Theorem toggleLock_keeps_lockInv (steps : list (string * string)) (s : State) :
  (Forall lockInv (notes s) ->
   Forall (fun s' => Forall lockInv (notes s')) (lockTrace steps s))
  /\
  (forall i, exists s',
      toggleLock i (setPassword "" s) = Done s' /\ notes s' = notes s)
  /\
  (forall i candidate note,
      candidate <> "" ->
      In note (notes (state_of (toggleLock i (setPassword candidate s)))) ->
      Note.id note = i ->
      lockInv note).
Proof.
  split; [|split].
  - revert s. induction steps as [|[i candidate] steps IH]; intros s H.
    + constructor.
    + cbn [lockTrace]. pose proof (lockInv_step i candidate s H) as H1.
      constructor; [exact H1 | apply IH, H1].
  - intros i. rewrite toggleLock_rejected by reflexivity.
    eexists. split; reflexivity.
  - intros i candidate note Hc Hin Hid.
    destruct (toggleLock_notes i (setPassword candidate s)) as [msg E];
      [exact Hc|].
    rewrite E in Hin.
    cbn [state_of showStatus setStatusMessage setNotes setPassword notes password]
      in Hin.
    unfold relocked in Hin. apply in_map_iff in Hin.
    destruct Hin as (n0 & Hn & _).
    destruct (isId i n0) eqn:I.
    + subst note. apply lockInv_locked, Hc.
    + subst note. apply isId_spec in Hid. congruence.
Qed.

Lemma toggleLock_keeps_lockInv_witness :
  Forall (fun s' => Forall lockInv (notes s'))
         (lockTrace [("1", "pw"); ("1", ""); ("1", "other"); ("2", "x")] threeNotes).
Proof.
  apply (proj1 (toggleLock_keeps_lockInv
                  [("1", "pw"); ("1", ""); ("1", "other"); ("2", "x")] threeNotes)).
  repeat (apply Forall_cons; [unfold lockInv; simpl; split; congruence|]).
  apply Forall_nil.
Defined.

(** The notes the application makes satisfy the lock invariant. *)
Lemma lockInv_newNote stamp now : lockInv (newNote stamp now).
Proof. unfold lockInv. simpl. split; congruence. Qed.

Lemma lockInv_welcomeNote now text : lockInv (welcomeNote now text).
Proof. unfold lockInv. simpl. split; congruence. Qed.

(** C9: with any non-empty candidate in the password box, [toggleLock] on a
    locked note unlocks it, setting [isLocked] to false and clearing the
    password; the stored password is never read, so it need not match. *)
Theorem toggleLock_unlocks_any_candidate (i : string) (s : State)
    (k : nat) (note : Note.t) :
  password s <> "" ->
  nth_error (notes s) k = Some note ->
  Note.id note = i ->
  Note.isLocked note = Some true ->
  exists s' note',
    toggleLock i s = Done s' /\
    nth_error (notes s') k = Some note' /\
    Note.isLocked note' = Some false /\
    Note.password note' = None /\
    Note.id note' = i /\ Note.content note' = Note.content note.
Proof.
  intros Hpw Hk Hid Hl.
  destruct (toggleLock_notes i s Hpw) as [msg ->].
  eexists. exists (locked note (password s)). split; [reflexivity|]. split.
  - cbn [showStatus setStatusMessage setNotes notes]. unfold relocked.
    rewrite nth_error_map, Hk. cbn [option_map].
    apply isId_spec in Hid. rewrite Hid. reflexivity.
  - unfold locked. cbn. rewrite Hl. simpl. auto.
Qed.

Lemma toggleLock_unlocks_any_candidate_witness :
  Note.password lockedNote <> Some (password withLocked) /\
  exists s' note',
    toggleLock "7" withLocked = Done s' /\
    nth_error (notes s') 1 = Some note' /\
    Note.isLocked note' = Some false /\
    Note.password note' = None /\
    Note.id note' = "7" /\ Note.content note' = Note.content lockedNote.
Proof.
  split; [discriminate|].
  apply (toggleLock_unlocks_any_candidate "7" withLocked 1 lockedNote).
  - discriminate.
  - reflexivity.
  - reflexivity.
  - reflexivity.
Defined.

(** ** The lock gate and the other row buttons *)

Lemma map_if_unlocked i (f : Note.t -> Note.t) (l : list Note.t) :
  (forall note, unlocked (f note) = f (unlocked note)) ->
  map (fun note => if isId i note then f note else note) (map unlocked l) =
  map unlocked (map (fun note => if isId i note then f note else note) l).
Proof.
  intros Hf. rewrite !map_map. apply map_ext. intros note.
  change (isId i (unlocked note)) with (isId i note).
  destruct (isId i note); [symmetry; apply Hf | reflexivity].
Qed.

Lemma find_unlocked i (l : list Note.t) :
  find (isId i) (map unlocked l) = option_map unlocked (find (isId i) l).
Proof. apply find_map_same. reflexivity. Qed.

Lemma filter_kept_unlocked i (l : list Note.t) :
  filter (kept i) (map unlocked l) = map unlocked (filter (kept i) l).
Proof.
  induction l as [|x l IH]; simpl; [reflexivity|].
  change (kept i (unlocked x)) with (kept i x).
  destruct (kept i x); simpl; rewrite IH; reflexivity.
Qed.

Lemma toggleArchive_forgetLocks i s :
  toggleArchive i (forgetLocks s) = onState forgetLocks (toggleArchive i s).
Proof.
  unfold toggleArchive, onState, forgetLocks.
  cbn [showStatus setStatusMessage setNotes setPassword notes].
  rewrite (map_if_unlocked i archived_toggled) by reflexivity.
  rewrite find_unlocked.
  destruct (find (isId i) _); reflexivity.
Qed.

Lemma toggleFavorite_forgetLocks i s :
  toggleFavorite i (forgetLocks s) = onState forgetLocks (toggleFavorite i s).
Proof.
  unfold toggleFavorite, onState, forgetLocks.
  cbn [showStatus setStatusMessage setNotes setPassword notes].
  rewrite (map_if_unlocked i favorite_toggled) by reflexivity.
  rewrite find_unlocked.
  destruct (find (isId i) _); reflexivity.
Qed.

Lemma deleteNote_forgetLocks i s :
  deleteNote i (forgetLocks s) = onState forgetLocks (deleteNote i s).
Proof.
  unfold deleteNote, onState, forgetLocks.
  cbn [showStatus setStatusMessage setNotes setPassword notes].
  rewrite length_map.
  destruct (Nat.eqb (List.length (notes s)) 1); [reflexivity|].
  fold (kept i). rewrite filter_kept_unlocked.
  destruct (filter (kept i) (notes s)); reflexivity.
Qed.

(** C10: for a locked note, whatever is in the password box: selecting it
    is refused unless the box holds its stored password, while
    [toggleArchive] and [toggleFavorite] flip its flag and leave its lock
    fields alone, and [deleteNote], when the collection has another note,
    removes it. None of the three reads a lock field or the password box:
    run on the state with every lock forgotten they give the same outcome
    with every lock forgotten. *)
Theorem lock_gates_selection_only (i : string) (s : State) (k : nat)
    (note : Note.t) :
  nth_error (notes s) k = Some note ->
  Note.id note = i ->
  Note.isLocked note = Some true ->
  (Note.password note <> Some (password s) ->
   selectNote note s = Done (showStatus "Please enter the correct password" s))
  /\
  (exists s' note',
     toggleArchive i s = Done s' /\ nth_error (notes s') k = Some note' /\
     Note.isArchived note' = Some (negb (truthy (Note.isArchived note))) /\
     Note.isLocked note' = Some true /\ Note.password note' = Note.password note)
  /\
  (exists s' note',
     toggleFavorite i s = Done s' /\ nth_error (notes s') k = Some note' /\
     Note.favorite note' = Some (negb (truthy (Note.favorite note))) /\
     Note.isLocked note' = Some true /\ Note.password note' = Note.password note)
  /\
  (2 <= List.length (notes s) ->
   notes (state_of (deleteNote i s)) = filter (kept i) (notes s) /\
   ~ In note (notes (state_of (deleteNote i s))))
  /\
  toggleArchive i (forgetLocks s) = onState forgetLocks (toggleArchive i s) /\
  toggleFavorite i (forgetLocks s) = onState forgetLocks (toggleFavorite i s) /\
  deleteNote i (forgetLocks s) = onState forgetLocks (deleteNote i s).
Proof.
  intros Hk Hid Hl. pose proof (proj2 (isId_spec i note) Hid) as Hown.
  split; [|split; [|split; [|split]]].
  - intros Hpw. unfold selectNote, gated. rewrite Hl. simpl.
    destruct (Note.password note) as [p|] eqn:E; [|reflexivity].
    destruct (String.eqb_spec p (password s)) as [->|_]; [|reflexivity].
    contradiction.
  - eexists. exists (archived_toggled note). split; [reflexivity|].
    cbn [showStatus setStatusMessage setNotes notes].
    rewrite nth_error_map, Hk. cbn [option_map]. rewrite Hown. simpl. auto.
  - eexists. exists (favorite_toggled note). split; [reflexivity|].
    cbn [showStatus setStatusMessage setNotes notes].
    rewrite nth_error_map, Hk. cbn [option_map]. rewrite Hown. simpl. auto.
  - intros Hlen.
    assert (Hn : notes (state_of (deleteNote i s)) = filter (kept i) (notes s)).
    { rewrite (deleteNote_many i s Hlen).
      destruct (filter (kept i) (notes s)); reflexivity. }
    split; [exact Hn|]. rewrite Hn. intros Hin.
    apply filter_In in Hin. destruct Hin as [_ K].
    apply kept_spec in K. contradiction.
  - split; [apply toggleArchive_forgetLocks|].
    split; [apply toggleFavorite_forgetLocks | apply deleteNote_forgetLocks].
Qed.

Lemma lock_gates_selection_only_witness :
  selectNote lockedNote withLocked =
  Done (showStatus "Please enter the correct password" withLocked)
  /\
  exists s' note',
    toggleArchive "7" withLocked = Done s' /\
    nth_error (notes s') 1 = Some note' /\
    Note.isArchived note' = Some true /\
    Note.isLocked note' = Some true /\ Note.password note' = Some "secret".
Proof.
  pose proof (lock_gates_selection_only "7" withLocked 1 lockedNote
                eq_refl eq_refl eq_refl) as H.
  split.
  - apply (proj1 H). discriminate.
  - exact (proj1 (proj2 H)).
Defined.

(** ** The query pipeline *)

Lemma prefix_spec (sub s : string) :
  prefix sub s = true <-> exists after : string, s = (sub ++ after)%string.
Proof.
  revert s. induction sub as [|c sub IH]; intros s.
  - split; [intros _; exists s; reflexivity | destruct s; reflexivity].
  - destruct s as [|d s]; simpl.
    + split; [discriminate | intros [after H]; discriminate].
    + destruct (ascii_dec c d) as [->|Hne].
      * rewrite IH. split; intros [after H]; exists after.
        -- rewrite H. reflexivity.
        -- injection H as H. exact H.
      * split; [discriminate|]. intros [after H]. injection H as H1 _.
        congruence.
Qed.

Lemma includes_step (s sub : string) :
  includes s sub =
  if prefix sub s then true
  else match s with
       | EmptyString => false
       | String _ s' => includes s' sub
       end.
Proof. destruct s; reflexivity. Qed.

Lemma includes_spec (s sub : string) :
  includes s sub = true <-> occursIn sub s.
Proof.
  unfold occursIn. split.
  - induction s as [|c s IH]; rewrite includes_step;
      destruct (prefix sub _) eqn:P.
    + intros _. apply prefix_spec in P. destruct P as [after H].
      exists EmptyString, after. exact H.
    + discriminate.
    + intros _. apply prefix_spec in P. destruct P as [after H].
      exists EmptyString, after. exact H.
    + intros H. destruct (IH H) as (before & after & E).
      exists (String c before), after. rewrite E. reflexivity.
  - intros (before & after & E). revert s E.
    induction before as [|c before IH]; intros s E; rewrite includes_step.
    + assert (P : prefix sub s = true) by (apply prefix_spec; eauto).
      rewrite P. reflexivity.
    + destruct (prefix sub s); [reflexivity|]. subst s. simpl.
      apply IH. reflexivity.
Qed.

Lemma includes_empty (s : string) : includes s "" = true.
Proof. rewrite includes_step. destruct s; reflexivity. Qed.

Lemma filter_all {A} (p : A -> bool) (l : list A) :
  (forall x, p x = true) -> filter p l = l.
Proof.
  intros H. induction l as [|x l IH]; simpl; [reflexivity|].
  rewrite H, IH. reflexivity.
Qed.

(** Decides the tests [cmp x y <= 0] of [insert] from the hypotheses. *)
Ltac sort_signs :=
  repeat match goal with
         | |- context [Z.leb ?x 0] =>
             first [ replace (Z.leb x 0) with true
                       by (symmetry; apply Z.leb_le; lia)
                   | replace (Z.leb x 0) with false
                       by (symmetry; apply Z.leb_gt; lia) ]
         end.

Lemma Array_includes_spec (arr : list string) (x : string) :
  Array_includes arr x = true <-> In x arr.
Proof.
  unfold Array_includes. rewrite existsb_exists. split.
  - intros (y & Hin & E). apply String.eqb_eq in E. subst y. exact Hin.
  - intros Hin. exists x. split; [exact Hin | apply String.eqb_refl].
Qed.

Lemma In_insert {A} (cmp : A -> A -> Z) (x y : A) (l : list A) :
  In x (insert cmp y l) <-> x = y \/ In x l.
Proof.
  induction l as [|z l IH]; simpl.
  - intuition congruence.
  - destruct (Z.leb (cmp y z) 0); simpl; [intuition congruence|].
    rewrite IH. intuition congruence.
Qed.

Lemma In_Array_sort {A} (cmp : A -> A -> Z) (x : A) (l : list A) :
  In x (Array_sort cmp l) <-> In x l.
Proof.
  induction l as [|y l IH]; simpl; [reflexivity|].
  rewrite In_insert, IH. intuition congruence.
Qed.

Section QueryFacts.
Variable toLowerCase : string -> string.
Variable localeCompare : string -> string -> Z.
Variable parseInt : string -> option Z.

Local Abbreviation view := (filteredNotes toLowerCase localeCompare parseInt).

Lemma passes_spec (s : State) (note : Note.t) :
  passes toLowerCase s note = true <->
  (occursIn (toLowerCase (searchQuery s)) (toLowerCase (Note.title note)) \/
   occursIn (toLowerCase (searchQuery s)) (toLowerCase (Note.content note)))
  /\
  (selectedTags s = [] \/
   forall tag, In tag (selectedTags s) -> In tag (Note.tags note)).
Proof.
  unfold passes. rewrite andb_true_iff, !orb_true_iff, !includes_spec.
  rewrite forallb_forall, Nat.eqb_eq, length_zero_iff_nil.
  assert (T : (forall tag, In tag (selectedTags s) ->
                 Array_includes (Note.tags note) tag = true) <->
              (forall tag, In tag (selectedTags s) -> In tag (Note.tags note))).
  { split; intros H tag Hin; apply Array_includes_spec, H, Hin. }
  rewrite T. reflexivity.
Qed.

(** C8: a note is in the filtered (and sorted) view exactly when it is in
    the collection, the lower-cased search text occurs in its lower-cased
    title or in its lower-cased content, and the selected tags are none or
    all among its tags; so with the two selected tags [A] and [B] every
    note of the view carries both. *)
Theorem filteredNotes_membership (s : State) (note : Note.t) :
  (In note (view s) <->
   In note (notes s) /\
   (occursIn (toLowerCase (searchQuery s)) (toLowerCase (Note.title note)) \/
    occursIn (toLowerCase (searchQuery s)) (toLowerCase (Note.content note)))
   /\
   (selectedTags s = [] \/
    forall tag, In tag (selectedTags s) -> In tag (Note.tags note)))
  /\
  (forall A B, selectedTags s = [A; B] -> In note (view s) ->
               In A (Note.tags note) /\ In B (Note.tags note)).
Proof.
  assert (M : In note (view s) <-> In note (notes s) /\ passes toLowerCase s note = true).
  { unfold view, filteredNotes. rewrite In_Array_sort, filter_In. reflexivity. }
  split.
  - rewrite M, passes_spec. reflexivity.
  - intros A B HS Hin. apply M in Hin. destruct Hin as [_ Hp].
    apply passes_spec in Hp. destruct Hp as [_ [Hnil|Hall]].
    + rewrite HS in Hnil. discriminate.
    + split; apply Hall; rewrite HS; simpl; auto.
Qed.

Lemma compareNotes_asc_desc (o : SortOption) (a b : Note.t) :
  compareNotes localeCompare parseInt o asc a b =
  (- compareNotes localeCompare parseInt o desc a b)%Z.
Proof. unfold compareNotes. destruct (comparison _ _ _ _ _); reflexivity. Qed.

(** C2, on the code: with the sort key [title] and the direction [asc],
    whenever [localeCompare] puts "Apple" before "Banana" before "cherry"
    the view of the notes titled Banana, Apple, cherry is cherry, Banana,
    Apple, and it is with the direction [desc] that it is Apple, Banana,
    cherry; the direction negates the comparison of every sort key. *)
Theorem title_asc_sorts_descending :
  toLowerCase "" = "" ->
  ordersBefore localeCompare "Apple" "Banana" ->
  ordersBefore localeCompare "Banana" "cherry" ->
  ordersBefore localeCompare "Apple" "cherry" ->
  map Note.title (view fruit) = ["cherry"; "Banana"; "Apple"] /\
  map Note.title (view fruitDesc) = ["Apple"; "Banana"; "cherry"] /\
  (forall o a b,
      compareNotes localeCompare parseInt o asc a b =
      (- compareNotes localeCompare parseInt o desc a b)%Z).
Proof.
  intros HL [AB BA] [Bc cB] [Ac cA].
  assert (F : forall s, searchQuery s = "" -> selectedTags s = [] ->
              filter (passes toLowerCase s) (notes s) = notes s).
  { intros s Hq Ht. apply filter_all. intros note.
    unfold passes. rewrite Hq, Ht, HL, !includes_empty. reflexivity. }
  split; [|split].
  - unfold view, filteredNotes. rewrite F by reflexivity.
    cbn [fruit notes sortOption sortDirection Array_sort].
    repeat (cbn [insert compareNotes comparison plainNote Note.title];
            progress sort_signs).
    reflexivity.
  - unfold view, filteredNotes. rewrite F by reflexivity.
    cbn [fruitDesc fruit notes sortOption sortDirection Array_sort].
    repeat (cbn [insert compareNotes comparison plainNote Note.title];
            progress sort_signs).
    reflexivity.
  - apply compareNotes_asc_desc.
Qed.
End QueryFacts.

Lemma filteredNotes_membership_witness :
  In noteAB (filteredNotes asciiLower asciiLocaleCompare decimalParseInt tagged)
  /\ (In noteA (filteredNotes asciiLower asciiLocaleCompare decimalParseInt tagged) ->
      In "B" (Note.tags noteA)).
Proof.
  split.
  - apply (proj1 (filteredNotes_membership asciiLower asciiLocaleCompare
                    decimalParseInt tagged noteAB)).
    split; [right; left; reflexivity|]. split.
    + left. exists "shopping ", "". reflexivity.
    + right. simpl. intros tag [<-|[<-|[]]]; auto.
  - intros H.
    apply (proj2 (filteredNotes_membership asciiLower asciiLocaleCompare
                    decimalParseInt tagged noteA) "A" "B" eq_refl H).
Defined.

Lemma title_asc_sorts_descending_witness :
  map Note.title (filteredNotes asciiLower asciiLocaleCompare decimalParseInt fruit)
  = ["cherry"; "Banana"; "Apple"].
Proof.
  apply (title_asc_sorts_descending asciiLower asciiLocaleCompare decimalParseInt).
  - reflexivity.
  - split; reflexivity.
  - split; reflexivity.
  - split; reflexivity.
Defined.

(** The editor is disabled while the active note is locked and the
    password box does not hold its password. *)
Lemma editorDisabled_locked (s : State) (a : Note.t) :
  activeNote s = Some a ->
  Note.isLocked a = Some true ->
  Note.password a <> Some (password s) ->
  editorDisabled s = Some true.
Proof.
  intros Ha Hl Hp. unfold editorDisabled, gated. rewrite Ha. simpl.
  rewrite Hl. simpl. destruct (Note.password a) as [p|]; [|reflexivity].
  destruct (String.eqb_spec p (password s)) as [->|_];
    [contradiction | reflexivity].
Qed.

(** * Further properties of the handlers *)

(** ** The derived title *)

Lemma substring_length_le (n : nat) (s : string) :
  String.length (substring 0 n s) <= n.
Proof.
  revert s. induction n as [|n IH]; intros s.
  - destruct s; simpl; lia.
  - destruct s as [|c s]; simpl; [lia|]. specialize (IH s). lia.
Qed.

Lemma substring_chars (n : nat) (s : string) (c : ascii) :
  In c (list_ascii_of_string (substring 0 n s)) -> In c (list_ascii_of_string s).
Proof.
  revert s. induction n as [|n IH]; intros s.
  - destruct s; simpl; contradiction.
  - destruct s as [|d s]; simpl; [contradiction|].
    intros [E|H]; [left; exact E | right; apply IH, H].
Qed.

Lemma firstLine_no_LF (s : string) : ~ In LF (list_ascii_of_string (firstLine s)).
Proof.
  induction s as [|c s IH]; simpl; [tauto|].
  destruct (Ascii.eqb_spec c LF) as [E|N]; simpl; [tauto|].
  intros [E|H]; [congruence | exact (IH H)].
Qed.

Lemma firstLine_prefix (n : nat) (s : string) :
  prefix (substring 0 n (firstLine s)) s = true.
Proof.
  revert n. induction s as [|c s IH]; intros n.
  - destruct n; reflexivity.
  - simpl. destruct (Ascii.eqb c LF).
    + destruct n; reflexivity.
    + destruct n; simpl; [reflexivity|].
      destruct (ascii_dec c c); [apply IH | congruence].
Qed.

(** X1: every note that [updateNote] rewrites gets a title that is not
    empty, has at most 50 characters and no line feed; it is "Untitled"
    when the first line of the new content is empty and otherwise the
    first 50 characters of that line, a prefix of the content. *)
Theorem updateNote_title (now : Z) (content : string) (addToHistory : bool)
    (s : State) (note : Note.t) :
  In note (notes (state_of (updateNote now content addToHistory s))) ->
  Note.id note = activeNoteId s ->
  Note.title note <> "" /\
  String.length (Note.title note) <= 50 /\
  ~ In LF (list_ascii_of_string (Note.title note)) /\
  (firstLine content = "" -> Note.title note = "Untitled") /\
  (firstLine content <> "" ->
   Note.title note = substring 0 50 (firstLine content) /\
   prefix (Note.title note) content = true).
Proof.
  intros Hin Hid.
  assert (Hr : In note (replaced now content s)).
  { unfold updateNote in Hin. destruct addToHistory; [|exact Hin].
    destruct (activeNote s) as [a|] eqn:Ha; [exact Hin|].
    exfalso. cbn [bind state_of] in Hin.
    unfold activeNote in Ha.
    destruct (find _ (notes s)) eqn:F; [discriminate|].
    destruct (notes s); [exact Hin | discriminate]. }
  unfold replaced in Hr. apply in_map_iff in Hr. destruct Hr as (n0 & E & _).
  destruct (isId (activeNoteId s) n0) eqn:I.
  2:{ subst n0. apply isId_spec in Hid. congruence. }
  subst note. cbn [withContent Note.title].
  destruct (firstLine content) as [|c l] eqn:FL.
  - change (orString (substring 0 50 "") "Untitled") with "Untitled".
    split; [discriminate|]. split; [simpl; lia|]. split.
    + simpl. intros H. decompose [or] H; try discriminate; assumption.
    + split; [reflexivity | intros N; contradiction].
  - assert (T : orString (substring 0 50 (String c l)) "Untitled"
                = substring 0 50 (String c l)) by reflexivity.
    rewrite T. split; [discriminate|]. split; [apply substring_length_le|].
    split.
    + intros H. apply substring_chars in H. rewrite <- FL in H.
      exact (firstLine_no_LF content H).
    + split; [discriminate|]. intros _. split; [reflexivity|].
      rewrite <- FL. apply firstLine_prefix.
Qed.

Lemma updateNote_title_witness :
  Note.title (withContent 0 ("Hello" ++ String LF "World")
                (plainNote "1" "b" "b" 2 ["a"])) <> "".
Proof.
  apply (updateNote_title 0 ("Hello" ++ String LF "World") true editedOnce
           (withContent 0 ("Hello" ++ String LF "World")
              (plainNote "1" "b" "b" 2 ["a"]))).
  - left. reflexivity.
  - reflexivity.
Defined.

(** ** What a content replacement leaves alone *)

Lemma replaced_frame (now : Z) (c : string) (s : State) :
  List.length (replaced now c s) = List.length (notes s) /\
  map keptByUpdate (replaced now c s) = map keptByUpdate (notes s) /\
  (forall k note, nth_error (notes s) k = Some note ->
                  Note.id note <> activeNoteId s ->
                  nth_error (replaced now c s) k = Some note).
Proof.
  unfold replaced. split; [apply length_map|]. split.
  - rewrite map_map. apply map_ext. intros note.
    destruct (isId (activeNoteId s) note); reflexivity.
  - intros k note Hk Hne. rewrite nth_error_map, Hk. cbn [option_map].
    destruct (isId (activeNoteId s) note) eqn:I; [|reflexivity].
    apply isId_spec in I. contradiction.
Qed.

Lemma updateNote_cases (now : Z) (c : string) (flag : bool) (s : State) :
  notes (state_of (updateNote now c flag s)) = notes s \/
  notes (state_of (updateNote now c flag s)) = replaced now c s.
Proof.
  unfold updateNote. destruct flag; [|right; reflexivity].
  destruct (activeNote s); [right | left]; reflexivity.
Qed.

Lemma handleUndo_cases (now : Z) (s : State) :
  notes (state_of (handleUndo now s)) = notes s \/
  exists c, notes (state_of (handleUndo now s)) = replaced now c s.
Proof.
  unfold handleUndo. destruct (undoStack s); [left; reflexivity|].
  destruct (activeNote s); [|left; reflexivity].
  right. eexists. reflexivity.
Qed.

Lemma handleRedo_cases (now : Z) (s : State) :
  notes (state_of (handleRedo now s)) = notes s \/
  exists c, notes (state_of (handleRedo now s)) = replaced now c s.
Proof.
  unfold handleRedo. destruct (redoStack s); [left; reflexivity|].
  destruct (activeNote s); [|left; reflexivity].
  right. eexists. reflexivity.
Qed.


Lemma updateFrame_refl (s : State) : updateFrame s (notes s).
Proof. unfold updateFrame. auto. Qed.

Lemma handleUndoIn_cases (r : State) (now : Z) (s : State) :
  notes (state_of (handleUndoIn r now s)) = notes s \/
  exists c, notes (state_of (handleUndoIn r now s)) = replaced now c r.
Proof.
  unfold handleUndoIn. destruct (undoStack r); [left; reflexivity|].
  destruct (activeNote r); [|left; reflexivity].
  right. eexists. reflexivity.
Qed.

Lemma handleRedoIn_cases (r : State) (now : Z) (s : State) :
  notes (state_of (handleRedoIn r now s)) = notes s \/
  exists c, notes (state_of (handleRedoIn r now s)) = replaced now c r.
Proof.
  unfold handleRedoIn. destruct (redoStack r); [left; reflexivity|].
  destruct (activeNote r); [|left; reflexivity].
  right. eexists. reflexivity.
Qed.

Lemma handleUndoIn_same (now : Z) (s : State) :
  handleUndoIn s now s = handleUndo now s.
Proof. reflexivity. Qed.

Lemma handleRedoIn_same (now : Z) (s : State) :
  handleRedoIn s now s = handleRedo now s.
Proof. reflexivity. Qed.

(** X2: an edit, and an undo or a redo run by the handler of the current
    render (the buttons), keep the number and the order of the notes,
    leave the id, favorite flag, tags, format, lock fields and archive
    flag of every note as they were and do not touch any note that the
    active pointer does not name. An undo or a redo run by the handler of
    a render [r] (Ctrl+Z and Ctrl+Y: the render in which the key listener
    was registered) either leaves the collection alone or puts in its
    place the notes of [r] with that frame: what changed in the notes
    since [r] is then lost. None of them moves the pointer. *)
Theorem content_updates_frame (r : State) (now : Z) (newContent : string)
    (s : State) :
  (updateFrame s (notes (state_of (edit now newContent s))) /\
   activeNoteId (state_of (edit now newContent s)) = activeNoteId s) /\
  (updateFrame s (notes (state_of (handleUndo now s))) /\
   updateFrame s (notes (state_of (handleRedo now s)))) /\
  ((notes (state_of (handleUndoIn r now s)) = notes s \/
    updateFrame r (notes (state_of (handleUndoIn r now s)))) /\
   activeNoteId (state_of (handleUndoIn r now s)) = activeNoteId s) /\
  ((notes (state_of (handleRedoIn r now s)) = notes s \/
    updateFrame r (notes (state_of (handleRedoIn r now s)))) /\
   activeNoteId (state_of (handleRedoIn r now s)) = activeNoteId s) /\
  (handleUndoIn s now s = handleUndo now s /\
   handleRedoIn s now s = handleRedo now s).
Proof.
  split; [|split; [|split; [|split]]]; split; try reflexivity.
  - destruct (updateNote_cases now newContent true s) as [E|E];
      unfold edit; rewrite E;
      [apply updateFrame_refl | apply replaced_frame].
  - unfold edit, updateNote. destruct (activeNote s); reflexivity.
  - destruct (handleUndo_cases now s) as [E|[c E]]; rewrite E;
      [apply updateFrame_refl | apply replaced_frame].
  - destruct (handleRedo_cases now s) as [E|[c E]]; rewrite E;
      [apply updateFrame_refl | apply replaced_frame].
  - destruct (handleUndoIn_cases r now s) as [E|[c E]]; rewrite E;
      [left; reflexivity | right; apply replaced_frame].
  - unfold handleUndoIn. destruct (undoStack r); [reflexivity|].
    destruct (activeNote r); reflexivity.
  - destruct (handleRedoIn_cases r now s) as [E|[c E]]; rewrite E;
      [left; reflexivity | right; apply replaced_frame].
  - unfold handleRedoIn. destruct (redoStack r); [reflexivity|].
    destruct (activeNote r); reflexivity.
Qed.

(** After starring the first of three notes, an undo by the handler of the
    render before the star gives the notes of that render back: the star
    is gone. *)
Lemma content_updates_frame_witness :
  listens (setUndoStack ["x"] threeNotes)
          (state_of (toggleFavorite "1" (setUndoStack ["x"] threeNotes))) /\
  map Note.favorite
      (notes (state_of (toggleFavorite "1" (setUndoStack ["x"] threeNotes))))
  = [Some true; None; None] /\
  map Note.favorite
      (notes (state_of (handleUndoIn (setUndoStack ["x"] threeNotes) 0
                          (state_of (toggleFavorite "1"
                                       (setUndoStack ["x"] threeNotes))))))
  = [None; None; None] /\
  (notes (state_of (handleUndoIn (setUndoStack ["x"] threeNotes) 0
                      (state_of (toggleFavorite "1"
                                   (setUndoStack ["x"] threeNotes)))))
   = notes (state_of (toggleFavorite "1" (setUndoStack ["x"] threeNotes))) \/
   updateFrame (setUndoStack ["x"] threeNotes)
     (notes (state_of (handleUndoIn (setUndoStack ["x"] threeNotes) 0
                         (state_of (toggleFavorite "1"
                                      (setUndoStack ["x"] threeNotes))))))).
Proof.
  split; [repeat split|]. split; [reflexivity|]. split; [reflexivity|].
  exact (proj1 (proj1 (proj2 (proj2
           (content_updates_frame (setUndoStack ["x"] threeNotes) 0 ""
              (state_of (toggleFavorite "1" (setUndoStack ["x"] threeNotes)))))))).
Defined.

(** ** The stacks *)

Lemma edit_valid (now : Z) (c : string) (s : State) (a : Note.t) :
  activeNote s = Some a ->
  Note.id a = activeNoteId s ->
  exists s1,
    edit now c s = Done s1 /\
    activeNote s1 = Some (withContent now c a) /\
    activeNoteId s1 = activeNoteId s /\
    undoStack s1 = undoStack s ++ [Note.content a] /\
    redoStack s1 = [] /\
    notes s1 = replaced now c s.
Proof.
  intros Ha Hid. unfold edit. rewrite (updateNote_logged now c s a Ha).
  eexists. split; [reflexivity|]. split; [|repeat split].
  erewrite activeNote_replaced; [|exact Ha|reflexivity|reflexivity].
  rewrite (isId_own s a Hid). reflexivity.
Qed.

Lemma undo_valid (now : Z) (s : State) (a : Note.t) (u : list string) (x : string) :
  activeNote s = Some a ->
  Note.id a = activeNoteId s ->
  undoStack s = u ++ [x] ->
  exists s1,
    handleUndo now s = Done s1 /\
    activeNote s1 = Some (withContent now x a) /\
    activeNoteId s1 = activeNoteId s /\
    undoStack s1 = u /\
    redoStack s1 = redoStack s ++ [Note.content a] /\
    notes s1 = replaced now x s.
Proof.
  intros Ha Hid Hu.
  assert (Hne : undoStack s <> []) by (rewrite Hu; apply snoc_not_nil).
  rewrite (handleUndo_step now s a Hne Ha), Hu, last_last, removelast_last.
  eexists. split; [reflexivity|]. split; [|repeat split].
  erewrite activeNote_replaced; [|exact Ha|reflexivity|reflexivity].
  rewrite (isId_own s a Hid). reflexivity.
Qed.

Lemma redo_valid (now : Z) (s : State) (a : Note.t) (r : list string) (x : string) :
  activeNote s = Some a ->
  Note.id a = activeNoteId s ->
  redoStack s = r ++ [x] ->
  exists s1,
    handleRedo now s = Done s1 /\
    activeNote s1 = Some (withContent now x a) /\
    activeNoteId s1 = activeNoteId s /\
    redoStack s1 = r /\
    undoStack s1 = undoStack s ++ [Note.content a] /\
    notes s1 = replaced now x s.
Proof.
  intros Ha Hid Hr.
  assert (Hne : redoStack s <> []) by (rewrite Hr; apply snoc_not_nil).
  rewrite (handleRedo_step now s a Hne Ha), Hr, last_last, removelast_last.
  eexists. split; [reflexivity|]. split; [|repeat split].
  erewrite activeNote_replaced; [|exact Ha|reflexivity|reflexivity].
  rewrite (isId_own s a Hid). reflexivity.
Qed.

Lemma snoc_cases {A} (l : list A) : l <> [] -> exists u x, l = u ++ [x].
Proof.
  intros H. destruct (exists_last H) as (u & x & E). eauto.
Qed.

(** X3: when the active pointer names a note of the collection, an undo
    followed at once by a redo leaves both stacks as they were, and so does
    a redo followed at once by an undo. *)
Theorem undo_redo_restores_stacks (now1 now2 : Z) (s : State) (a : Note.t) :
  activeNote s = Some a ->
  Note.id a = activeNoteId s ->
  (undoStack s <> [] ->
   exists s1 s2,
     handleUndo now1 s = Done s1 /\ handleRedo now2 s1 = Done s2 /\
     undoStack s2 = undoStack s /\ redoStack s2 = redoStack s)
  /\
  (redoStack s <> [] ->
   exists s1 s2,
     handleRedo now1 s = Done s1 /\ handleUndo now2 s1 = Done s2 /\
     undoStack s2 = undoStack s /\ redoStack s2 = redoStack s).
Proof.
  intros Ha Hid. split.
  - intros Hne. destruct (snoc_cases _ Hne) as (u & x & Hu).
    destruct (undo_valid now1 s a u x Ha Hid Hu)
      as (s1 & E1 & Ha1 & Hi1 & Hu1 & Hr1 & _).
    destruct (redo_valid now2 s1 (withContent now1 x a) (redoStack s)
                (Note.content a) Ha1) as (s2 & E2 & _ & _ & Hr2 & Hu2 & _).
    + rewrite Hi1. exact Hid.
    + exact Hr1.
    + exists s1, s2. repeat split; try assumption.
      rewrite Hu2, Hu1, Hu. reflexivity.
  - intros Hne. destruct (snoc_cases _ Hne) as (r & x & Hr).
    destruct (redo_valid now1 s a r x Ha Hid Hr)
      as (s1 & E1 & Ha1 & Hi1 & Hr1 & Hu1 & _).
    destruct (undo_valid now2 s1 (withContent now1 x a) (undoStack s)
                (Note.content a) Ha1) as (s2 & E2 & _ & _ & Hu2 & Hr2 & _).
    + rewrite Hi1. exact Hid.
    + exact Hu1.
    + exists s1, s2. repeat split; try assumption.
      rewrite Hr2, Hr1, Hr. reflexivity.
Qed.

Lemma undo_redo_restores_stacks_witness :
  exists s1 s2,
    handleUndo 3 editedOnce = Done s1 /\ handleRedo 4 s1 = Done s2 /\
    undoStack s2 = ["a"] /\ redoStack s2 = [].
Proof.
  exact (proj1 (undo_redo_restores_stacks 3 4 editedOnce
                  (plainNote "1" "b" "b" 2 ["a"]) eq_refl eq_refl)
               ltac:(discriminate)).
Defined.

(** X4: with a note to edit, an edit pushes the content it replaces on the
    undo stack and empties the redo stack, so that a redo right after an
    edit changes nothing. *)
Theorem edit_clears_redo (now now' : Z) (newContent : string) (s : State)
    (a : Note.t) :
  activeNote s = Some a ->
  exists s1,
    edit now newContent s = Done s1 /\
    undoStack s1 = undoStack s ++ [Note.content a] /\
    redoStack s1 = [] /\
    handleRedo now' s1 = Done s1.
Proof.
  intros Ha. unfold edit. rewrite (updateNote_logged now newContent s a Ha).
  eexists. split; [reflexivity|]. repeat split.
Qed.

Lemma edit_clears_redo_witness :
  exists s1,
    edit 1 "c" editedOnce = Done s1 /\
    undoStack s1 = ["a"; "b"] /\
    redoStack s1 = [] /\
    handleRedo 2 s1 = Done s1.
Proof.
  exact (edit_clears_redo 1 2 "c" editedOnce (plainNote "1" "b" "b" 2 ["a"]) eq_refl).
Defined.

(** ** Several edits, several undos *)

Lemma edits_stack (es : list (Z * string)) :
  forall (s : State) (a : Note.t),
    activeNote s = Some a ->
    Note.id a = activeNoteId s ->
    exists s1 a1,
      edits es s = Done s1 /\
      activeNote s1 = Some a1 /\
      Note.id a1 = activeNoteId s1 /\
      undoStack s1 ++ [Note.content a1]
      = undoStack s ++ Note.content a :: map snd es /\
      redoStack s1 = match es with [] => redoStack s | _ :: _ => [] end.
Proof.
  induction es as [|[now c] es IH]; intros s a Ha Hid.
  - exists s, a. simpl. auto.
  - destruct (edit_valid now c s a Ha Hid) as (s' & E & Ha' & Hi' & Hu' & Hr' & _).
    destruct (IH s' (withContent now c a) Ha') as (s1 & a1 & E1 & Ha1 & Hi1 & Hu1 & Hr1).
    { rewrite Hi'. exact Hid. }
    exists s1, a1. cbn [edits]. rewrite E. cbn [bind].
    split; [exact E1|]. split; [exact Ha1|]. split; [exact Hi1|]. split.
    + rewrite Hu1, Hu', <- app_assoc. reflexivity.
    + rewrite Hr1, Hr'. destruct es; reflexivity.
Qed.

Lemma undos_unwind (l : list string) :
  forall (nows : list Z) (s : State) (a : Note.t) (u : list string),
    List.length nows = List.length l ->
    activeNote s = Some a ->
    Note.id a = activeNoteId s ->
    undoStack s = u ++ l ->
    exists s2 a2,
      undos nows s = Done s2 /\
      activeNote s2 = Some a2 /\
      Note.id a2 = activeNoteId s2 /\
      undoStack s2 = u /\
      Note.content a2 = hd (Note.content a) l /\
      redoStack s2 = redoStack s ++ rev (tl (l ++ [Note.content a])).
Proof.
  induction l as [|x l IH] using rev_ind; intros nows s a u Hlen Ha Hid Hu.
  - destruct nows; [|discriminate]. exists s, a.
    rewrite app_nil_r in Hu. cbn [undos hd app tl rev].
    rewrite app_nil_r. repeat split; assumption.
  - rewrite length_app in Hlen. cbn [List.length] in Hlen.
    destruct nows as [|now nows]; [simpl in Hlen; lia|].
    rewrite app_assoc in Hu.
    destruct (undo_valid now s a (u ++ l) x Ha Hid Hu)
      as (s' & E & Ha' & Hi' & Hu' & Hr' & _).
    destruct (IH nows s' (withContent now x a) u) as (s2 & a2 & E2 & Ha2 & Hi2 & Hu2 & Hc2 & Hr2).
    { simpl in Hlen. lia. }
    { exact Ha'. }
    { rewrite Hi'. exact Hid. }
    { exact Hu'. }
    exists s2, a2. cbn [undos]. rewrite E. cbn [bind].
    repeat (split; [assumption|]). split.
    + rewrite Hc2. destruct l; reflexivity.
    + rewrite Hr2, Hr'. cbn [withContent Note.content].
      rewrite <- !app_assoc. f_equal.
      destruct l as [|y l]; [reflexivity|].
      change (tl ((y :: l) ++ [x])) with (l ++ [x]).
      change (tl ((y :: l) ++ [x] ++ [Note.content a]))
        with (l ++ [x] ++ [Note.content a]).
      rewrite (app_assoc l [x]), (rev_app_distr (l ++ [x])). reflexivity.
Qed.

(** X5: when the active pointer names a note of the collection, N edits in
    a row followed by N undos bring back the content the note had before
    the first edit and the undo stack of before, and leave on the redo
    stack the texts of the edits, the last one at the bottom. *)
Theorem edits_then_undos (es : list (Z * string)) (nows : list Z)
    (s : State) (a : Note.t) :
  activeNote s = Some a ->
  Note.id a = activeNoteId s ->
  List.length nows = List.length es ->
  exists s1 s2 a2,
    edits es s = Done s1 /\
    undos nows s1 = Done s2 /\
    activeNote s2 = Some a2 /\
    Note.content a2 = Note.content a /\
    undoStack s2 = undoStack s /\
    redoStack s2 =
    match es with [] => redoStack s | _ :: _ => [] end ++ rev (map snd es).
Proof.
  intros Ha Hid Hlen.
  destruct (edits_stack es s a Ha Hid) as (s1 & a1 & E1 & Ha1 & Hi1 & Hu1 & Hr1).
  remember (Note.content a :: map snd es) as X eqn:EX.
  assert (HX : X = removelast X ++ [last X ""])
    by (apply app_removelast_last; rewrite EX; discriminate).
  assert (HX' : Note.content a :: map snd es = removelast X ++ [last X ""])
    by (rewrite <- HX; symmetry; exact EX).
  rewrite HX, app_assoc in Hu1. apply app_inj_tail in Hu1.
  destruct Hu1 as [Hu1 Hc1].
  assert (HlenX : List.length (removelast X) = List.length es).
  { apply (f_equal (@List.length string)) in HX'.
    rewrite length_app in HX'. cbn [List.length] in HX'.
    rewrite length_map in HX'. lia. }
  destruct (undos_unwind (removelast X) nows s1 a1 (undoStack s))
    as (s2 & a2 & E2 & Ha2 & _ & Hu2 & Hc2 & Hr2); try assumption.
  { lia. }
  exists s1, s2, a2. repeat (split; [assumption|]). split; [|split].
  - rewrite Hc2, Hc1.
    destruct (removelast X) as [|y l].
    + injection HX' as -> _. reflexivity.
    + injection HX' as -> _. reflexivity.
  - exact Hu2.
  - rewrite Hr2, Hr1, Hc1, <- HX, EX. reflexivity.
Qed.

Lemma edits_then_undos_witness :
  exists s1 s2 a2,
    edits [(1%Z, "c"); (2%Z, "d")] editedOnce = Done s1 /\
    undos [3%Z; 4%Z] s1 = Done s2 /\
    activeNote s2 = Some a2 /\
    Note.content a2 = "b" /\
    undoStack s2 = ["a"] /\
    redoStack s2 = ["d"; "c"].
Proof.
  exact (edits_then_undos [(1%Z, "c"); (2%Z, "d")] [3%Z; 4%Z] editedOnce
           (plainNote "1" "b" "b" 2 ["a"]) eq_refl eq_refl eq_refl).
Defined.

(** ** A new note *)

Lemma find_app_none {A} (p : A -> bool) (l l' : list A) :
  find p l = None -> find p (l ++ l') = find p l'.
Proof.
  induction l as [|x l IH]; simpl; [reflexivity|].
  destruct (p x); [discriminate | exact IH].
Qed.

Lemma find_app_some {A} (p : A -> bool) (l l' : list A) (x : A) :
  find p l = Some x -> find p (l ++ l') = Some x.
Proof.
  induction l as [|y l IH]; simpl; [discriminate|].
  destruct (p y); [auto | exact IH].
Qed.

Lemma find_fresh (i : string) (l : list Note.t) :
  (forall note, In note l -> Note.id note <> i) -> find (isId i) l = None.
Proof.
  intros H. destruct (find (isId i) l) as [n|] eqn:F; [|reflexivity].
  apply find_some in F. destruct F as [Hin I]. apply isId_spec in I.
  exfalso. exact (H n Hin I).
Qed.

(** X7: [createNewNote] run by the handler of a render [r] (the New Note
    button: the current render; Ctrl+N: the render in which the key
    listener was registered) always completes; the collection becomes the
    notes of [r], as they were in [r], followed by the new note, so that
    with the button the notes there were are left as they are and with the
    shortcut what changed in them since [r] is lost. It points the active
    pointer at the new id and leaves both stacks alone. The active note is
    then the new note when no note of [r] has that id, and otherwise the
    first note of [r] with that id. *)
Theorem createNewNote_appends (r : State) (stamp now : Z) (s : State) :
  (exists s',
     createNewNoteIn r stamp now s = Done s' /\
     notes s' = notes r ++ [newNote stamp now] /\
     activeNoteId s' = Note.id (newNote stamp now) /\
     undoStack s' = undoStack s /\ redoStack s' = redoStack s /\
     ((forall note, In note (notes r) -> Note.id note <> Note.id (newNote stamp now)) ->
      activeNote s' = Some (newNote stamp now)) /\
     (forall old,
         find (isId (Note.id (newNote stamp now))) (notes r) = Some old ->
         activeNote s' = Some old))
  /\
  createNewNoteIn s stamp now s = createNewNote stamp now s.
Proof.
  split; [|reflexivity].
  eexists. split; [reflexivity|]. repeat split.
  - intros Hfresh. unfold activeNote.
    cbn [showStatus setStatusMessage setActiveNoteId setNotes notes activeNoteId].
    rewrite (find_app_none _ _ _ (find_fresh _ _ Hfresh)).
    cbn [find]. unfold isId. rewrite String.eqb_refl. reflexivity.
  - intros old F. unfold activeNote.
    cbn [showStatus setStatusMessage setActiveNoteId setNotes notes activeNoteId].
    rewrite (find_app_some _ _ _ _ F). reflexivity.
Qed.

(** The button on three notes; and Ctrl+N after the first of three notes
    was starred, by the handler of the render before the star: the star is
    gone. *)
Lemma createNewNote_appends_witness :
  (exists s',
     createNewNote 1700000000000 5 threeNotes = Done s' /\
     notes s' = notes threeNotes ++ [newNote 1700000000000 5] /\
     activeNote s' = Some (newNote 1700000000000 5))
  /\
  (exists s',
     createNewNoteIn threeNotes 1700000000000 5
       (state_of (toggleFavorite "1" threeNotes)) = Done s' /\
     notes s' = notes threeNotes ++ [newNote 1700000000000 5]).
Proof.
  assert (Hfresh : forall note, In note (notes threeNotes) ->
                     Note.id note <> Note.id (newNote 1700000000000 5))
    by (intros note [<-|[<-|[<-|[]]]]; discriminate).
  split.
  - destruct (proj1 (createNewNote_appends threeNotes 1700000000000 5 threeNotes))
      as (s' & E & Hn & _ & _ & _ & Hf & _).
    exists s'. split; [exact E|]. split; [exact Hn | exact (Hf Hfresh)].
  - destruct (proj1 (createNewNote_appends threeNotes 1700000000000 5
                       (state_of (toggleFavorite "1" threeNotes))))
      as (s' & E & Hn & _).
    exists s'. split; [exact E | exact Hn].
Defined.

(** X6: the stacks belong to the session, not to a note: after
    [createNewNote] with a fresh id, an undo on a non-empty undo stack puts
    the snapshot on top of the stack, which was taken from another note,
    into the new note, and leaves the earlier notes as they are. *)
Theorem undo_after_create_hits_new_note (stamp now now' : Z) (s : State) :
  (forall note, In note (notes s) -> Note.id note <> Note.id (newNote stamp now)) ->
  undoStack s <> [] ->
  exists s1 s2,
    createNewNote stamp now s = Done s1 /\
    handleUndo now' s1 = Done s2 /\
    notes s2 =
    notes s ++ [withContent now' (last (undoStack s) "") (newNote stamp now)].
Proof.
  intros Hfresh Hu.
  eexists. eexists. split; [reflexivity|].
  set (s1 := showStatus _ _).
  assert (Ha1 : activeNote s1 = Some (newNote stamp now)).
  { unfold activeNote. subst s1.
    cbn [showStatus setStatusMessage setActiveNoteId setNotes notes activeNoteId].
    rewrite (find_app_none _ _ _ (find_fresh _ _ Hfresh)).
    cbn [find]. unfold isId. rewrite String.eqb_refl. reflexivity. }
  rewrite (handleUndo_step now' s1 _ Hu Ha1). split; [reflexivity|].
  cbn [showStatus setStatusMessage setNotes notes]. unfold replaced.
  subst s1.
  cbn [showStatus setStatusMessage setActiveNoteId setNotes setRedoStack
       setUndoStack notes activeNoteId undoStack].
  rewrite map_app. f_equal.
  - rewrite <- (map_id (notes s)) at 2. apply map_ext_in.
    intros note Hin. destruct (isId _ note) eqn:I; [|reflexivity].
    apply isId_spec in I. exfalso. exact (Hfresh note Hin I).
  - cbn [map]. unfold isId. rewrite String.eqb_refl. reflexivity.
Qed.

Lemma undo_after_create_hits_new_note_witness :
  exists s1 s2,
    createNewNote 1700000000000 5 editedOnce = Done s1 /\
    handleUndo 6 s1 = Done s2 /\
    notes s2 =
    notes editedOnce ++ [withContent 6 "a" (newNote 1700000000000 5)].
Proof.
  apply (undo_after_create_hits_new_note 1700000000000 5 6 editedOnce).
  - intros note [<-|[]]. discriminate.
  - discriminate.
Defined.

(** ** Deleting: a missing id, and the one way to crash *)

Lemma filter_kept_absent (i : string) (l : list Note.t) :
  (forall note, In note l -> Note.id note <> i) -> filter (kept i) l = l.
Proof.
  intros H. induction l as [|x l IH]; simpl; [reflexivity|].
  assert (K : kept i x = true) by (apply kept_spec, H; left; reflexivity).
  rewrite K, IH; [reflexivity|]. intros note Hin. apply H. right. exact Hin.
Qed.

(** X8: on a collection of two or more notes, deleting an id that no note
    has removes nothing, yet reports "Note deleted" and moves the active
    pointer to the first note. *)
Theorem deleteNote_absent_id (i : string) (s : State) :
  2 <= List.length (notes s) ->
  (forall note, In note (notes s) -> Note.id note <> i) ->
  exists s' first,
    deleteNote i s = Done s' /\
    notes s' = notes s /\
    hd_error (notes s) = Some first /\
    activeNoteId s' = Note.id first /\
    statusMessage s' = "Note deleted".
Proof.
  intros Hlen Habs. rewrite (deleteNote_many i s Hlen).
  rewrite (filter_kept_absent i (notes s) Habs).
  destruct (notes s) as [|first rest] eqn:E; [simpl in Hlen; lia|].
  eexists. exists first. split; [reflexivity|]. repeat split.
Qed.

Lemma deleteNote_absent_id_witness :
  exists s' first,
    deleteNote "9" threeNotes = Done s' /\
    notes s' = notes threeNotes /\
    hd_error (notes threeNotes) = Some first /\
    activeNoteId s' = Note.id first /\
    statusMessage s' = "Note deleted".
Proof.
  apply (deleteNote_absent_id "9" threeNotes).
  - simpl. lia.
  - intros note [<-|[<-|[<-|[]]]]; discriminate.
Defined.

Lemma filter_kept_nil (i : string) (l : list Note.t) :
  filter (kept i) l = [] <-> Forall (fun note => Note.id note = i) l.
Proof.
  induction l as [|x l IH]; simpl.
  - split; [constructor | reflexivity].
  - destruct (kept i x) eqn:K.
    + split; [discriminate|]. intros H. inversion H; subst.
      apply kept_spec in K. contradiction.
    + rewrite IH. split.
      * intros H. constructor; [|exact H].
        unfold kept in K. apply negb_false_iff in K. apply isId_spec, K.
      * intros H. inversion H; assumption.
Qed.

(** X10: [deleteNote] throws exactly when the collection does not have
    exactly one note and every note has the deleted id, and then the
    collection it leaves behind is empty; with a note in the collection the
    edit, undo, redo and add-tag handlers, which read the active note,
    complete. *)
Theorem handlers_throw (i : string) (now : Z) (newContent : string) (s : State) :
  ((exists s', deleteNote i s = Thrown s') <->
   List.length (notes s) <> 1 /\ Forall (fun note => Note.id note = i) (notes s))
  /\
  (forall s', deleteNote i s = Thrown s' -> notes s' = [])
  /\
  (notes s <> [] ->
   (exists s', edit now newContent s = Done s') /\
   (exists s', handleUndo now s = Done s') /\
   (exists s', handleRedo now s = Done s') /\
   (exists s', addTag s = Done s')).
Proof.
  split; [|split].
  - unfold deleteNote. fold (kept i).
    destruct (Nat.eqb_spec (List.length (notes s)) 1) as [E|N].
    + split; [intros [s' H]; discriminate | intros [H _]; contradiction].
    + rewrite <- filter_kept_nil.
      destruct (filter (kept i) (notes s)) as [|first rest].
      * split; [intros _; split; [exact N | reflexivity] | intros _; eauto].
      * split; [intros [s' H]; discriminate | intros [_ H]; discriminate].
  - intros s'. unfold deleteNote.
    destruct (Nat.eqb (List.length (notes s)) 1); [discriminate|].
    destruct (filter _ (notes s)); [|discriminate].
    intros [= <-]. reflexivity.
  - intros Hne.
    assert (Ha : exists a, activeNote s = Some a).
    { destruct (notes s) as [|x l] eqn:E; [contradiction|].
      apply (activeNote_of_nth s 0 x). rewrite E. reflexivity. }
    destruct Ha as [a Ha]. split; [|split; [|split]].
    + unfold edit. rewrite (updateNote_logged _ _ _ _ Ha). eauto.
    + unfold handleUndo. rewrite Ha.
      destruct (undoStack s); eexists; reflexivity.
    + unfold handleRedo. rewrite Ha.
      destruct (redoStack s); eexists; reflexivity.
    + unfold addTag. rewrite Ha. destruct (newTag s); [eauto|].
      destruct (Array_includes _ _); eexists; reflexivity.
Qed.

Lemma handlers_throw_witness :
  exists s', edit 0 "x" threeNotes = Done s'.
Proof.
  apply (proj2 (proj2 (handlers_throw "1" 0 "x" threeNotes))).
  discriminate.
Defined.

(** ** What every reachable state satisfies *)

Lemma wellFormed_withContent now c note :
  wellFormed note -> wellFormed (withContent now c note).
Proof.
  intros (L & (h & Hh & Hv) & F). split; [exact L|]. split; [|exact F].
  exists (h ++ [Note.content note]). cbn [withContent Note.history Note.version].
  rewrite Hh, Hv. cbn [orEmpty]. split; [reflexivity|]. f_equal.
  rewrite length_app. cbn [List.length].
  rewrite orOne_positive by (unfold two53; lia).
  destruct (Z.min_spec (1 + Z.of_nat (List.length h)) two53) as [[Hlt ->]|[Hge ->]].
  - rewrite numberAdd_one by (unfold two53 in *; lia). unfold two53 in *. lia.
  - rewrite numberAdd_one_saturated. unfold two53 in *. lia.
Qed.

Lemma wellFormed_locked note pw :
  pw <> "" -> wellFormed note -> wellFormed (locked note pw).
Proof.
  intros Hpw (_ & V & F). split; [apply lockInv_locked, Hpw|]. split; assumption.
Qed.

Lemma wellFormed_format_toggled type note :
  wellFormed note -> wellFormed (format_toggled type note).
Proof.
  intros (L & V & (b & i & u & F)). split; [exact L|]. split; [exact V|].
  cbn [format_toggled Note.format]. rewrite F.
  destruct type; cbn; eauto.
Qed.

Lemma wellFormed_newNote stamp now : wellFormed (newNote stamp now).
Proof.
  split; [apply lockInv_newNote|]. split.
  - exists []. split; reflexivity.
  - exists false, false, false. reflexivity.
Qed.

Lemma wellFormed_welcomeNote now text : wellFormed (welcomeNote now text).
Proof.
  split; [apply lockInv_welcomeNote|]. split.
  - exists []. split; reflexivity.
  - exists false, false, false. reflexivity.
Qed.

Lemma Inv_same (s s' : State) :
  notes s' = notes s -> activeNoteId s' = activeNoteId s -> Inv s -> Inv s'.
Proof. unfold Inv. intros -> ->. auto. Qed.

Lemma Inv_map (s s' : State) (i : string) (g : Note.t -> Note.t) :
  notes s' = map (fun note => if isId i note then g note else note) (notes s) ->
  activeNoteId s' = activeNoteId s ->
  (forall note, Note.id (g note) = Note.id note) ->
  (forall note, wellFormed note -> wellFormed (g note)) ->
  Inv s -> Inv s'.
Proof.
  intros Hn Hi Hid Hwf [(a & Hin & Ha) Hall]. unfold Inv. rewrite Hn, Hi. split.
  - exists (if isId i a then g a else a). split.
    + apply (in_map (fun note => if isId i note then g note else note)), Hin.
    + destruct (isId i a); [rewrite Hid|]; exact Ha.
  - apply Forall_map. revert Hall. apply Forall_impl.
    intros note W. destruct (isId i note); [apply Hwf|]; exact W.
Qed.

Lemma Inv_replaced (s s' : State) now c :
  notes s' = replaced now c s -> activeNoteId s' = activeNoteId s ->
  Inv s -> Inv s'.
Proof.
  intros Hn Hi. apply (Inv_map s s' (activeNoteId s) (withContent now c));
    [exact Hn | exact Hi | reflexivity | apply wellFormed_withContent].
Qed.

Lemma Inv_step (s s' : State) : Inv s -> step s s' -> Inv s'.
Proof.
  intros I St. destruct St as
    [stamp now s s' H | i s s' H | note s s' Hin H | now c s s' H
    | now s s' H | now s s' H | i s s' H | i s s' H | i s s' H
    | type s s' H | s s' H | tag s s' H
    | v s | v s | v s | tag s | v s | s | message s];
    try (apply (Inv_same s); [reflexivity | reflexivity | exact I]).
  - injection H as <-. destruct I as [_ Hall]. split.
    + exists (newNote stamp now). split; [|reflexivity].
      cbn. apply in_or_app. right. left. reflexivity.
    + cbn. apply Forall_app. split; [exact Hall|].
      constructor; [apply wellFormed_newNote | constructor].
  - unfold deleteNote in H.
    destruct (Nat.eqb (List.length (notes s)) 1).
    + injection H as <-. exact I.
    + destruct (filter _ (notes s)) as [|first rest] eqn:F; [discriminate|].
      injection H as <-. destruct I as [_ Hall]. split.
      * exists first. split; [left|]; reflexivity.
      * cbn. rewrite Forall_forall in *. intros note Hn. apply Hall.
        rewrite <- F in Hn. apply filter_In in Hn. apply Hn.
  - unfold selectNote in H. destruct (gated note (password s)).
    + injection H as <-. exact I.
    + injection H as <-. destruct I as [_ Hall]. split; [|exact Hall].
      exists note. split; [exact Hin | reflexivity].
  - unfold edit, updateNote in H. destruct (activeNote s); [|discriminate].
    injection H as <-. apply (Inv_replaced s _ now c); [reflexivity|reflexivity|exact I].
  - unfold handleUndo in H. destruct (undoStack s).
    + injection H as <-. exact I.
    + destruct (activeNote s); [|discriminate]. injection H as <-.
      eapply (Inv_replaced s); [reflexivity | reflexivity | exact I].
  - unfold handleRedo in H. destruct (redoStack s).
    + injection H as <-. exact I.
    + destruct (activeNote s); [|discriminate]. injection H as <-.
      eapply (Inv_replaced s); [reflexivity | reflexivity | exact I].
  - unfold toggleLock in H. destruct (password s) as [|c0 p] eqn:P.
    + injection H as <-. exact I.
    + injection H as <-.
      apply (Inv_map s _ i (fun note => locked note (String c0 p)));
        [reflexivity | reflexivity | reflexivity | | exact I].
      intros note. apply wellFormed_locked. discriminate.
  - injection H as <-.
    apply (Inv_map s _ i archived_toggled);
      [reflexivity | reflexivity | reflexivity | | exact I].
    intros note W. exact W.
  - injection H as <-.
    apply (Inv_map s _ i favorite_toggled);
      [reflexivity | reflexivity | reflexivity | | exact I].
    intros note W. exact W.
  - injection H as <-.
    apply (Inv_map s _ (activeNoteId s) (format_toggled type));
      [reflexivity | reflexivity | reflexivity | | exact I].
    apply wellFormed_format_toggled.
  - unfold addTag in H. destruct (newTag s) as [|c0 t] eqn:T.
    + injection H as <-. exact I.
    + destruct (activeNote s) as [a|]; [|discriminate].
      destruct (Array_includes (Note.tags a) (String c0 t)).
      * injection H as <-. exact I.
      * injection H as <-.
        apply (Inv_map s _ (activeNoteId s)
                 (fun note => withTags (Note.tags note ++ [String c0 t]) note));
          [reflexivity | reflexivity | reflexivity | | exact I].
        intros note W. exact W.
  - injection H as <-.
    apply (Inv_map s _ (activeNoteId s)
             (fun note => withTags (filter (fun t => negb (String.eqb t tag))
                                           (Note.tags note)) note));
      [reflexivity | reflexivity | reflexivity | | exact I].
    intros note W. exact W.
Qed.

(** X9: from the first render on an empty storage, whatever handlers
    complete and in whatever order, the active pointer names a note of the
    collection (which is therefore never empty) and every note has a
    password exactly when it is locked, a version that is one more than the
    number of its history entries (up to 2^53, where adding one to a double
    no longer changes it), and one-element format arrays. *)
Theorem reachable_Inv (now : Z) (text : string) (s : State) :
  reachable (initialState now text) s -> Inv s.
Proof.
  intros R. induction R as [|s s' _ IH St].
  - split.
    + exists (welcomeNote now text). split; [left|]; reflexivity.
    + constructor; [apply wellFormed_welcomeNote | constructor].
  - exact (Inv_step s s' IH St).
Qed.

Lemma reachable_Inv_witness :
  Inv (state_of (createNewNote 1700000000000 5 (initialState 0 "hi"))).
Proof.
  apply (reachable_Inv 0 "hi").
  apply (reachable_step _ (initialState 0 "hi")); [apply reachable_refl|].
  apply (step_create 1700000000000 5). reflexivity.
Defined.

(** ** Tags *)

Lemma withTags_same (note : Note.t) : withTags (Note.tags note) note = note.
Proof. destruct note; reflexivity. Qed.

Lemma filter_neq_In (t x : string) (l : list string) :
  In x (filter (fun tag => negb (String.eqb tag t)) l) <-> In x l /\ x <> t.
Proof.
  rewrite filter_In, negb_true_iff. split; intros [H N]; split; try exact H.
  - intros E. apply String.eqb_eq in E. congruence.
  - apply String.eqb_neq. exact N.
Qed.

Lemma filter_neq_absent (t : string) (l : list string) :
  ~ In t l -> filter (fun tag => negb (String.eqb tag t)) l = l.
Proof.
  intros H. induction l as [|x l IH]; simpl; [reflexivity|].
  destruct (String.eqb_spec x t) as [E|N]; simpl.
  - exfalso. apply H. left. exact E.
  - f_equal. apply IH. intros Hin. apply H. right. exact Hin.
Qed.

Lemma filter_neq_snoc (t : string) (l : list string) :
  ~ In t l -> filter (fun tag => negb (String.eqb tag t)) (l ++ [t]) = l.
Proof.
  intros H. rewrite filter_app, (filter_neq_absent t l H). simpl.
  rewrite String.eqb_refl. simpl. apply app_nil_r.
Qed.

Lemma NoDup_snoc {A} (l : list A) (x : A) :
  NoDup l -> ~ In x l -> NoDup (l ++ [x]).
Proof.
  intros Hl Hx. apply NoDup_app; [exact Hl | repeat constructor; simpl; tauto |].
  intros y Hy [<-|[]]. exact (Hx Hy).
Qed.

Lemma activeNote_mapped (s s' : State) (a : Note.t) (g : Note.t -> Note.t) :
  activeNote s = Some a ->
  Note.id a = activeNoteId s ->
  (forall note, Note.id (g note) = Note.id note) ->
  notes s' = map (fun note => if isId (activeNoteId s) note then g note else note)
                 (notes s) ->
  activeNoteId s' = activeNoteId s ->
  activeNote s' = Some (g a).
Proof.
  intros Ha Hid Hg Hn Hi. unfold activeNote in *. rewrite Hn, Hi.
  rewrite find_map_same.
  2:{ intros x. unfold isId at 1 3.
      destruct (isId (activeNoteId s) x); [rewrite Hg|]; reflexivity. }
  destruct (find (isId (activeNoteId s)) (notes s)) as [n|] eqn:F.
  - injection Ha as <-. simpl. rewrite (isId_own s n Hid). reflexivity.
  - exfalso. destruct (notes s) as [|x l]; [discriminate|].
    injection Ha as <-. simpl in F.
    rewrite (isId_own s x Hid) in F. discriminate.
Qed.

Lemma addTag_fresh (s : State) (a : Note.t) :
  activeNote s = Some a ->
  Note.id a = activeNoteId s ->
  newTag s <> "" -> ~ In (newTag s) (Note.tags a) ->
  exists s',
    addTag s = Done s' /\
    activeNote s' = Some (withTags (Note.tags a ++ [newTag s]) a) /\
    activeNoteId s' = activeNoteId s /\
    newTag s' = "".
Proof.
  intros Ha Hid Hne Hnin. unfold addTag. rewrite Ha.
  destruct (Array_includes (Note.tags a) (newTag s)) eqn:I.
  { apply Array_includes_spec in I. contradiction. }
  destruct (newTag s) as [|c t] eqn:T; [contradiction|].
  eexists. split; [reflexivity|]. split; [|split; reflexivity].
  apply (activeNote_mapped s _ a
           (fun note => withTags (Note.tags note ++ [String c t]) note) Ha Hid);
    reflexivity.
Qed.

(** X11: with the active pointer on a note of the collection, [addTag]
    changes nothing at all when the tag box is empty or holds a tag the
    active note already has; otherwise it appends the tag after the tags of
    the active note and empties the tag box, so that a duplicate-free tag
    list stays duplicate-free. *)
Theorem addTag_appends_once (s : State) (a : Note.t) :
  activeNote s = Some a ->
  Note.id a = activeNoteId s ->
  (newTag s = "" \/ In (newTag s) (Note.tags a) -> addTag s = Done s)
  /\
  (newTag s <> "" -> ~ In (newTag s) (Note.tags a) ->
   exists s',
     addTag s = Done s' /\
     activeNote s' = Some (withTags (Note.tags a ++ [newTag s]) a) /\
     newTag s' = "" /\
     (NoDup (Note.tags a) -> NoDup (Note.tags a ++ [newTag s]))).
Proof.
  intros Ha Hid. split.
  - intros [E|Hin]; unfold addTag.
    + rewrite E. reflexivity.
    + rewrite Ha. apply Array_includes_spec in Hin. rewrite Hin.
      destruct (newTag s); reflexivity.
  - intros Hne Hnin.
    destruct (addTag_fresh s a Ha Hid Hne Hnin) as (s' & E & Ha' & _ & Hn').
    exists s'. repeat (split; [assumption|]).
    intros Hnd. apply NoDup_snoc; assumption.
Qed.

Lemma addTag_appends_once_witness :
  exists s',
    addTag (setNewTag "work" threeNotes) = Done s' /\
    activeNote s' = Some (withTags ["work"] (plainNote "2" "two" "two" 1 [])) /\
    newTag s' = "".
Proof.
  destruct (proj2 (addTag_appends_once (setNewTag "work" threeNotes)
                     (plainNote "2" "two" "two" 1 []) eq_refl eq_refl))
    as (s' & E & Ha & Hn & _).
  - discriminate.
  - simpl. tauto.
  - exists s'. auto.
Defined.

(** X12: [removeTag] leaves, in every note that the active pointer names,
    exactly the tags that differ from the removed one; and removing a tag
    right after [addTag] added it gives the active note back as it was. *)
Theorem removeTag_after_addTag (s : State) (a : Note.t) (tag : string) :
  (forall note x,
      In note (notes (state_of (removeTag tag s))) ->
      Note.id note = activeNoteId s ->
      In x (Note.tags note) -> x <> tag)
  /\
  (activeNote s = Some a -> Note.id a = activeNoteId s ->
   newTag s = tag -> tag <> "" -> ~ In tag (Note.tags a) ->
   exists s1 s2,
     addTag s = Done s1 /\ removeTag tag s1 = Done s2 /\
     activeNote s2 = Some a).
Proof.
  split.
  - intros note x Hin Hid Hx.
    cbn [removeTag state_of showStatus setStatusMessage setNotes notes] in Hin.
    apply in_map_iff in Hin. destruct Hin as (n0 & E & _).
    destruct (isId (activeNoteId s) n0) eqn:I.
    + subst note. cbn [withTags Note.tags] in Hx.
      apply filter_neq_In in Hx. apply Hx.
    + subst n0. apply isId_spec in Hid. congruence.
  - intros Ha Hid Ht Hne Hnin. subst tag.
    destruct (addTag_fresh s a Ha Hid Hne Hnin) as (s1 & E1 & Ha1 & Hi1 & _).
    exists s1. eexists. split; [exact E1|]. split; [reflexivity|].
    rewrite (activeNote_mapped s1 _ (withTags (Note.tags a ++ [newTag s]) a)
               (fun note => withTags (filter (fun t => negb (String.eqb t (newTag s)))
                                             (Note.tags note)) note) Ha1);
      try reflexivity.
    + cbn [withTags Note.tags]. rewrite (filter_neq_snoc _ _ Hnin).
      destruct a; reflexivity.
    + rewrite Hi1. exact Hid.
Qed.

Lemma removeTag_after_addTag_witness :
  exists s1 s2,
    addTag (setNewTag "work" threeNotes) = Done s1 /\
    removeTag "work" s1 = Done s2 /\
    activeNote s2 = Some (plainNote "2" "two" "two" 1 []).
Proof.
  apply (proj2 (removeTag_after_addTag (setNewTag "work" threeNotes)
                  (plainNote "2" "two" "two" 1 []) "work")).
  - reflexivity.
  - reflexivity.
  - reflexivity.
  - discriminate.
  - simpl. tauto.
Defined.

(** ** Sorting *)

Lemma insert_perm {A} (cmp : A -> A -> Z) (x : A) (l : list A) :
  Permutation (insert cmp x l) (x :: l).
Proof.
  induction l as [|y l IH]; simpl; [reflexivity|].
  destruct (Z.leb (cmp x y) 0); [reflexivity|].
  rewrite IH. apply perm_swap.
Qed.

Lemma Array_sort_perm {A} (cmp : A -> A -> Z) (l : list A) :
  Permutation (Array_sort cmp l) l.
Proof.
  induction l as [|x l IH]; simpl; [reflexivity|].
  rewrite insert_perm. constructor. exact IH.
Qed.

Lemma insert_Sorted {A} (cmp : A -> A -> Z) (x : A) (l : list A) :
  (forall a b, (0 < cmp a b)%Z -> (cmp b a <= 0)%Z) ->
  Sorted (fun a b => (cmp a b <= 0)%Z) l ->
  Sorted (fun a b => (cmp a b <= 0)%Z) (insert cmp x l).
Proof.
  intros Htot. induction l as [|y l IH]; intros Hs; simpl.
  - repeat constructor.
  - destruct (Z.leb_spec (cmp x y) 0) as [Hle|Hgt].
    + constructor; [exact Hs | constructor; exact Hle].
    + inversion Hs as [|? ? Hl Hhd]; subst. constructor; [apply IH, Hl|].
      destruct l as [|z l]; simpl.
      * constructor. apply Htot, Hgt.
      * destruct (Z.leb (cmp x z) 0); constructor.
        -- apply Htot, Hgt.
        -- inversion Hhd; assumption.
Qed.

Lemma Array_sort_Sorted {A} (cmp : A -> A -> Z) (l : list A) :
  (forall a b, (0 < cmp a b)%Z -> (cmp b a <= 0)%Z) ->
  Sorted (fun a b => (cmp a b <= 0)%Z) (Array_sort cmp l).
Proof.
  intros Htot. induction l as [|x l IH]; simpl; [constructor|].
  apply insert_Sorted; assumption.
Qed.

Lemma lexCompare_antisym (key : ascii -> nat) (a b : string) :
  lexCompare key a b = CompOpp (lexCompare key b a).
Proof.
  revert b. induction a as [|x a IH]; intros [|y b]; simpl; try reflexivity.
  rewrite (Nat.compare_antisym (key x) (key y)).
  destruct (Nat.compare (key x) (key y)); simpl; [apply IH | reflexivity | reflexivity].
Qed.

Lemma codeUnitCompare_total (a b : string) :
  (0 < codeUnitCompare a b)%Z -> (codeUnitCompare b a <= 0)%Z.
Proof.
  unfold codeUnitCompare. rewrite (lexCompare_antisym nat_of_ascii b a).
  destruct (lexCompare nat_of_ascii a b); simpl; lia.
Qed.

(** ** The tag bar *)

Lemma setAdd_fold_In (l acc : list string) (x : string) :
  In x (fold_left setAdd l acc) <-> In x acc \/ In x l.
Proof.
  revert acc. induction l as [|t l IH]; intros acc; simpl; [tauto|].
  rewrite IH. unfold setAdd.
  destruct (Array_includes acc t) eqn:I.
  - apply Array_includes_spec in I. intuition congruence.
  - rewrite in_app_iff. simpl. intuition congruence.
Qed.

Lemma setAdd_fold_NoDup (l acc : list string) :
  NoDup acc -> NoDup (fold_left setAdd l acc).
Proof.
  revert acc. induction l as [|t l IH]; intros acc Hnd; simpl; [exact Hnd|].
  apply IH. unfold setAdd. destruct (Array_includes acc t) eqn:I; [exact Hnd|].
  apply NoDup_snoc; [exact Hnd|]. intros Hin.
  apply Array_includes_spec in Hin. congruence.
Qed.

(** X13: [allTags] holds exactly the tags that some note of the collection
    carries, each once, in the order of their code units. *)
Theorem allTags_spec (s : State) :
  (forall tag, In tag (allTags s) <->
               exists note, In note (notes s) /\ In tag (Note.tags note)) /\
  NoDup (allTags s) /\
  Sorted codeUnitLe (allTags s).
Proof.
  unfold allTags. split; [|split].
  - intros tag. rewrite In_Array_sort, setAdd_fold_In, in_flat_map.
    simpl. tauto.
  - apply (Permutation_NoDup (Permutation_sym (Array_sort_perm _ _))).
    apply setAdd_fold_NoDup. constructor.
  - apply Array_sort_Sorted. apply codeUnitCompare_total.
Qed.

(** X14: clicking a tag of the tag bar flips whether it is selected and
    leaves the other selected tags as they are; clicking twice a tag that
    was not selected gives the selection back. *)
Theorem toggleSelectedTag_flips (tag : string) (s : State) :
  (In tag (selectedTags (toggleSelectedTag tag s)) <-> ~ In tag (selectedTags s))
  /\
  (forall t, t <> tag ->
             (In t (selectedTags (toggleSelectedTag tag s)) <-> In t (selectedTags s)))
  /\
  (~ In tag (selectedTags s) ->
   selectedTags (toggleSelectedTag tag (toggleSelectedTag tag s)) = selectedTags s).
Proof.
  unfold toggleSelectedTag. cbn [setSelectedTags selectedTags].
  split; [|split].
  - destruct (Array_includes (selectedTags s) tag) eqn:I.
    + apply Array_includes_spec in I. rewrite filter_neq_In. tauto.
    + rewrite in_app_iff. simpl. split; [|tauto].
      intros _ Hin. apply Array_includes_spec in Hin. congruence.
  - intros t Hne. destruct (Array_includes (selectedTags s) tag).
    + rewrite filter_neq_In. tauto.
    + rewrite in_app_iff. simpl. intuition congruence.
  - intros Hnin.
    destruct (Array_includes (selectedTags s) tag) eqn:I.
    { apply Array_includes_spec in I. contradiction. }
    assert (I2 : Array_includes (selectedTags s ++ [tag]) tag = true).
    { apply Array_includes_spec, in_or_app. right. left. reflexivity. }
    rewrite I2. apply filter_neq_snoc, Hnin.
Qed.

Lemma toggleSelectedTag_flips_witness :
  selectedTags (toggleSelectedTag "C" (toggleSelectedTag "C" tagged))
  = selectedTags tagged.
Proof.
  apply (proj2 (proj2 (toggleSelectedTag_flips "C" tagged))).
  simpl. intros [H|[H|[]]]; discriminate.
Defined.

(** ** Formats and row flags *)





(** ** Locking, then selecting *)

(** X21: after [toggleLock] has locked an unlocked note with the non-empty
    candidate of the password box, clicking its row selects it while the
    box still holds that candidate and is refused, with the pointer left
    where it was, as soon as the box holds anything else. *)
Theorem lock_then_select (i : string) (s : State) (k : nat) (note : Note.t)
    (other : string) :
  password s <> "" ->
  nth_error (notes s) k = Some note ->
  Note.id note = i ->
  truthy (Note.isLocked note) = false ->
  other <> password s ->
  exists s' note',
    toggleLock i s = Done s' /\
    nth_error (notes s') k = Some note' /\
    Note.isLocked note' = Some true /\
    Note.password note' = Some (password s) /\
    selectNote note' s' = Done (setActiveNoteId i s') /\
    selectNote note' (setPassword other s')
    = Done (showStatus "Please enter the correct password" (setPassword other s')).
Proof.
  intros Hpw Hk Hid Hl Hother.
  destruct (toggleLock_notes i s Hpw) as [msg ->].
  eexists. exists (locked note (password s)). split; [reflexivity|].
  assert (Hg : forall q, gated (locked note (password s)) q
                         = negb (String.eqb (password s) q)).
  { intros q. unfold gated, locked. cbn [Note.isLocked Note.password].
    rewrite Hl. reflexivity. }
  split; [|split; [|split; [|split]]].
  - cbn [showStatus setStatusMessage setNotes notes]. unfold relocked.
    rewrite nth_error_map, Hk. cbn [option_map].
    apply isId_spec in Hid. rewrite Hid. reflexivity.
  - unfold locked. cbn. rewrite Hl. reflexivity.
  - unfold locked. cbn. rewrite Hl. reflexivity.
  - unfold selectNote. rewrite Hg.
    cbn [showStatus setStatusMessage setNotes password].
    rewrite String.eqb_refl. cbn [negb]. rewrite <- Hid. reflexivity.
  - unfold selectNote. rewrite Hg. cbn [setPassword password].
    destruct (String.eqb_spec (password s) other) as [E|_]; [|reflexivity].
    exfalso. apply Hother. symmetry. exact E.
Qed.

Lemma lock_then_select_witness :
  exists s' note',
    toggleLock "1" (setPassword "pw" threeNotes) = Done s' /\
    nth_error (notes s') 0 = Some note' /\
    Note.isLocked note' = Some true /\
    Note.password note' = Some "pw" /\
    selectNote note' s' = Done (setActiveNoteId "1" s') /\
    selectNote note' (setPassword "guess" s')
    = Done (showStatus "Please enter the correct password" (setPassword "guess" s')).
Proof.
  apply (lock_then_select "1" (setPassword "pw" threeNotes) 0
           (plainNote "1" "one" "one" 1 []) "guess").
  - discriminate.
  - reflexivity.
  - reflexivity.
  - reflexivity.
  - discriminate.
Defined.

(** ** The sorted view *)

Lemma Sorted_impl {A} (R R' : A -> A -> Prop) (l : list A) :
  (forall a b, R a b -> R' a b) -> Sorted R l -> Sorted R' l.
Proof.
  intros H. induction 1 as [|x l Hs IH Hhd]; constructor; [exact IH|].
  destruct Hhd; constructor. apply H. assumption.
Qed.

Lemma Array_sort_ties {A} (cmp : A -> A -> Z) (l : list A) :
  (forall a b, In a l -> In b l -> cmp a b = 0%Z) -> Array_sort cmp l = l.
Proof.
  induction l as [|x l IH]; intros H; simpl; [reflexivity|].
  rewrite IH by (intros a b Ha Hb; apply H; right; assumption).
  destruct l as [|y l]; simpl; [reflexivity|].
  rewrite (H x y) by (simpl; auto). reflexivity.
Qed.

Lemma insert_front {A} (cmp : A -> A -> Z) (x : A) (l : list A) :
  (forall y, In y l -> (cmp x y <= 0)%Z) -> insert cmp x l = x :: l.
Proof.
  destruct l as [|y l]; simpl; [reflexivity|]. intros H.
  destruct (Z.leb_spec (cmp x y) 0) as [_|Hgt]; [reflexivity|].
  specialize (H y (or_introl eq_refl)). lia.
Qed.

Lemma insert_past {A} (cmp : A -> A -> Z) (x : A) (front back : list A) :
  (forall y, In y front -> (0 < cmp x y)%Z) ->
  insert cmp x (front ++ back) = front ++ insert cmp x back.
Proof.
  intros H. induction front as [|y front IH]; simpl; [reflexivity|].
  destruct (Z.leb_spec (cmp x y) 0) as [Hle|_].
  - specialize (H y (or_introl eq_refl)). lia.
  - f_equal. apply IH. intros z Hz. apply H. right. exact Hz.
Qed.

(** A stable sort on a two-valued key: the notes with the key first, each
    group in its earlier order. *)
Lemma Array_sort_groups (cmp : Note.t -> Note.t -> Z) (p : Note.t -> bool)
    (l : list Note.t) :
  (forall a b, cmp a b = ((if p b then 1 else 0) - (if p a then 1 else 0))%Z) ->
  Array_sort cmp l = filter p l ++ filter (fun note => negb (p note)) l.
Proof.
  intros Hc. induction l as [|x l IH]; simpl; [reflexivity|].
  rewrite IH. destruct (p x) eqn:Px; simpl.
  - apply insert_front. intros y _. rewrite Hc, Px. destruct (p y); lia.
  - rewrite insert_past.
    + f_equal. apply insert_front. intros y Hy. apply filter_In in Hy.
      destruct Hy as [_ Py]. apply negb_true_iff in Py.
      rewrite Hc, Px, Py. lia.
    + intros y Hy. apply filter_In in Hy. destruct Hy as [_ Py].
      rewrite Hc, Px, Py. lia.
Qed.

Section ViewFacts.
Variable toLowerCase : string -> string.
Variable localeCompare : string -> string -> Z.
Variable parseInt : string -> option Z.

Local Abbreviation view := (filteredNotes toLowerCase localeCompare parseInt).
Local Abbreviation shown := (passes toLowerCase).

Lemma view_In (s : State) (note : Note.t) :
  In note (view s) <-> In note (notes s) /\ shown s note = true.
Proof. unfold filteredNotes. rewrite In_Array_sort, filter_In. reflexivity. Qed.

(** X15: the view holds the notes that pass the filter, each as often as
    the collection holds it, whatever the sort key and direction; so it is
    never longer than the collection, and with an empty search text and no
    selected tag it holds every note of the collection. *)
Theorem view_is_permutation (s : State) :
  Permutation (view s) (filter (shown s) (notes s)) /\
  List.length (view s) <= List.length (notes s) /\
  (toLowerCase "" = "" -> searchQuery s = "" -> selectedTags s = [] ->
   Permutation (view s) (notes s)).
Proof.
  assert (P : Permutation (view s) (filter (shown s) (notes s)))
    by apply Array_sort_perm.
  split; [exact P|]. split.
  - rewrite (Permutation_length P). apply filter_length_le.
  - intros HL Hq Ht. rewrite P, filter_all; [reflexivity|].
    intros note. unfold passes. rewrite Hq, Ht, HL, !includes_empty. reflexivity.
Qed.

(** X16: the tag bar narrows the view: after selecting one more tag the
    view holds exactly the notes it held before that carry the tag. *)
Theorem select_tag_narrows (tag : string) (s : State) (note : Note.t) :
  ~ In tag (selectedTags s) ->
  (In note (view (toggleSelectedTag tag s)) <->
   In note (view s) /\ In tag (Note.tags note)).
Proof.
  intros Hnin. rewrite !view_In, !passes_spec.
  unfold toggleSelectedTag.
  destruct (Array_includes (selectedTags s) tag) eqn:I.
  { apply Array_includes_spec in I. contradiction. }
  cbn [setSelectedTags selectedTags searchQuery notes].
  split.
  - intros (Hin & Hs & [Hnil|Hall]).
    + destruct (selectedTags s); discriminate.
    + split; [split; [exact Hin|split; [exact Hs|]]|].
      * right. intros t Ht. apply Hall, in_or_app. left. exact Ht.
      * apply Hall, in_or_app. right. left. reflexivity.
  - intros ((Hin & Hs & Hsel) & Htag). split; [exact Hin|]. split; [exact Hs|].
    right. intros t Ht. apply in_app_or in Ht. destruct Ht as [Ht|[<-|[]]].
    + destruct Hsel as [Hnil|Hall]; [rewrite Hnil in Ht; contradiction|].
      apply Hall, Ht.
    + exact Htag.
Qed.

(** X17: with the sort key [modified] the direction does what its name
    says: with [desc] every note of the view was modified no earlier than
    every note after it, with [asc] no later. *)
Theorem modified_view_sorted (s : State) :
  sortOption s = modified ->
  match sortDirection s with
  | desc => StronglySorted
              (fun a b => (Note.lastModified b <= Note.lastModified a)%Z) (view s)
  | asc => StronglySorted
             (fun a b => (Note.lastModified a <= Note.lastModified b)%Z) (view s)
  end.
Proof.
  intros Ho. unfold filteredNotes. rewrite Ho.
  destruct (sortDirection s).
  - apply Sorted_StronglySorted; [intros a b c Hab Hbc; lia|].
    eapply Sorted_impl; [|apply Array_sort_Sorted].
    + intros a b H. cbn in H. lia.
    + intros a b. cbn. lia.
  - apply Sorted_StronglySorted; [intros a b c Hab Hbc; lia|].
    eapply Sorted_impl; [|apply Array_sort_Sorted].
    + intros a b H. cbn in H. lia.
    + intros a b. cbn. lia.
Qed.

(** X18: with the sort key [archived] the view is the notes that pass the
    filter in two groups, each in the order of the collection: with [desc]
    the archived ones first, with [asc] the others first. *)
Theorem archived_view_groups (s : State) :
  sortOption s = archived ->
  let passing := filter (shown s) (notes s) in
  view s =
  match sortDirection s with
  | desc => filter isArchivedNote passing
            ++ filter (fun note => negb (isArchivedNote note)) passing
  | asc => filter (fun note => negb (isArchivedNote note)) passing
           ++ filter isArchivedNote passing
  end.
Proof.
  intros Ho passing. unfold filteredNotes. rewrite Ho. fold passing.
  destruct (sortDirection s).
  - rewrite (Array_sort_groups _ (fun note => negb (isArchivedNote note))).
    + f_equal. apply filter_ext. intros note. apply negb_involutive.
    + intros a b. unfold compareNotes, comparison, isArchivedNote.
      destruct (truthy (Note.isArchived a)), (truthy (Note.isArchived b));
        reflexivity.
  - apply (Array_sort_groups _ isArchivedNote).
    intros a b. reflexivity.
Qed.

(** X19: with the sort key [created], when [parseInt] makes no number of
    any id the comparison is [NaN] throughout and the view keeps the
    order of the collection, in both directions; when it makes a number
    of every id, the direction [desc] lists the smaller numbers first. *)
Theorem created_view_order (s : State) :
  sortOption s = created ->
  ((forall note, In note (notes s) -> parseInt (Note.id note) = None) ->
   view s = filter (shown s) (notes s))
  /\
  ((forall note, In note (notes s) -> parseInt (Note.id note) <> None) ->
   sortDirection s = desc ->
   Sorted (fun a b => exists x y, parseInt (Note.id a) = Some x /\
                                  parseInt (Note.id b) = Some y /\ (x <= y)%Z)
          (view s)).
Proof.
  intros Ho. split.
  - intros Hnan. unfold filteredNotes. rewrite Ho. apply Array_sort_ties.
    intros a b Ha _. apply filter_In in Ha. destruct Ha as [Ha _].
    unfold compareNotes, comparison. rewrite (Hnan a Ha). reflexivity.
  - intros Hnum Hd.
    assert (Hs : Sorted (fun a b =>
                   (compareNotes localeCompare parseInt created desc a b <= 0)%Z)
                   (view s)).
    { unfold filteredNotes. rewrite Ho, Hd. apply Array_sort_Sorted.
      intros a b. unfold compareNotes, comparison.
      destruct (parseInt (Note.id a)), (parseInt (Note.id b)); lia. }
    assert (Hall : Forall (fun note => parseInt (Note.id note) <> None) (view s)).
    { apply Forall_forall. intros note Hin. apply view_In in Hin.
      apply Hnum, Hin. }
    revert Hs Hall. generalize (view s) as l.
    induction l as [|x l IH]; intros Hs Hall; [constructor|].
    inversion Hs as [|? ? Hl Hhd]; subst.
    inversion Hall as [|? ? Hx Hrest]; subst.
    constructor; [apply IH; assumption|].
    destruct Hhd as [|y l Hxy]; constructor.
    inversion Hrest as [|? ? Hy _]; subst.
    unfold compareNotes, comparison in Hxy.
    destruct (parseInt (Note.id x)) as [vx|]; [|contradiction].
    destruct (parseInt (Note.id y)) as [vy|]; [|contradiction].
    exists vx, vy. repeat split. lia.
Qed.
End ViewFacts.

Lemma view_is_permutation_witness :
  Permutation
    (filteredNotes asciiLower asciiLocaleCompare decimalParseInt fruit)
    (notes fruit).
Proof.
  apply (view_is_permutation asciiLower asciiLocaleCompare decimalParseInt fruit);
    reflexivity.
Defined.

Lemma select_tag_narrows_witness :
  In noteAB (filteredNotes asciiLower asciiLocaleCompare decimalParseInt
               (toggleSelectedTag "x" tagged)) <->
  In noteAB (filteredNotes asciiLower asciiLocaleCompare decimalParseInt tagged)
  /\ In "x" (Note.tags noteAB).
Proof.
  apply (select_tag_narrows asciiLower asciiLocaleCompare decimalParseInt
           "x" tagged noteAB).
  simpl. intros [H|[H|[]]]; discriminate.
Defined.

(** Notes modified at 5, 9 and 2: newest first with [desc], oldest first
    with [asc]. *)
Lemma modified_view_sorted_witness :
  (StronglySorted (fun a b => (Note.lastModified b <= Note.lastModified a)%Z)
     (filteredNotes asciiLower asciiLocaleCompare decimalParseInt dated) /\
   map Note.lastModified
       (filteredNotes asciiLower asciiLocaleCompare decimalParseInt dated)
   = [9; 5; 2]%Z)
  /\
  (StronglySorted (fun a b => (Note.lastModified a <= Note.lastModified b)%Z)
     (filteredNotes asciiLower asciiLocaleCompare decimalParseInt
        (setSortDirection asc dated)) /\
   map Note.lastModified
       (filteredNotes asciiLower asciiLocaleCompare decimalParseInt
          (setSortDirection asc dated))
   = [2; 5; 9]%Z).
Proof.
  split; (split; [|reflexivity]).
  - exact (modified_view_sorted asciiLower asciiLocaleCompare decimalParseInt
             dated eq_refl).
  - exact (modified_view_sorted asciiLower asciiLocaleCompare decimalParseInt
             (setSortDirection asc dated) eq_refl).
Defined.

(** Notes 1 to 4 of which 2 and 4 are archived: 2, 4, 1, 3 with [desc] and
    1, 3, 2, 4 with [asc]. *)
Lemma archived_view_groups_witness :
  map Note.id
      (filteredNotes asciiLower asciiLocaleCompare decimalParseInt shelved)
  = ["2"; "4"; "1"; "3"]
  /\
  map Note.id
      (filteredNotes asciiLower asciiLocaleCompare decimalParseInt
         (setSortDirection asc shelved))
  = ["1"; "3"; "2"; "4"].
Proof.
  split.
  - rewrite (archived_view_groups asciiLower asciiLocaleCompare decimalParseInt
               shelved eq_refl).
    reflexivity.
  - rewrite (archived_view_groups asciiLower asciiLocaleCompare decimalParseInt
               (setSortDirection asc shelved) eq_refl).
    reflexivity.
Defined.

(** Ids gamma, alpha, beta, of which [parseInt] makes no number: the order
    of the collection is kept. Ids 30, 4, 200 with [desc]: 4, 30, 200. *)
Lemma created_view_order_witness :
  map Note.id
      (filteredNotes asciiLower asciiLocaleCompare decimalParseInt named)
  = ["gamma"; "alpha"; "beta"]
  /\
  (Sorted (fun a b => exists x y, decimalParseInt (Note.id a) = Some x /\
                                  decimalParseInt (Note.id b) = Some y /\
                                  (x <= y)%Z)
          (filteredNotes asciiLower asciiLocaleCompare decimalParseInt numbered)
   /\
   map Note.id
       (filteredNotes asciiLower asciiLocaleCompare decimalParseInt numbered)
   = ["4"; "30"; "200"]).
Proof.
  split.
  - rewrite (proj1 (created_view_order asciiLower asciiLocaleCompare
                      decimalParseInt named eq_refl)).
    + reflexivity.
    + intros note [<-|[<-|[<-|[]]]]; reflexivity.
  - split; [|reflexivity].
    apply (proj2 (created_view_order asciiLower asciiLocaleCompare
                    decimalParseInt numbered eq_refl)).
    + intros note [<-|[<-|[<-|[]]]]; discriminate.
    + reflexivity.
Defined.

(** ** The word counter *)

Lemma split_runs (s : string) :
  List.length (filter (fun word => Nat.ltb 0 (String.length word))
                 (tl (splitWhiteSpace false s))) = wordRuns false s /\
  List.length (filter (fun word => Nat.ltb 0 (String.length word))
                 (splitWhiteSpace true s)) = wordRuns true s /\
  List.length (filter (fun word => Nat.ltb 0 (String.length word))
                 (splitWhiteSpace false s)) = wordRuns true s.
Proof.
  induction s as [|c s (IH1 & IH2 & IH3)]; [repeat split|].
  cbn [splitWhiteSpace wordRuns]. destruct (isWhiteSpace c).
  - cbn [tl filter String.length Nat.ltb Nat.leb]. auto.
  - destruct (splitWhiteSpace false s) as [|piece rest];
      cbn [tl filter String.length Nat.ltb Nat.leb List.length] in *;
      rewrite <- IH1; auto.
Qed.

Lemma wordRuns_trimStart (s : string) :
  wordRuns true (trimStart s) = wordRuns true s.
Proof.
  induction s as [|c s IH]; [reflexivity|].
  cbn [trimStart]. destruct (isWhiteSpace c) eqn:W.
  - cbn [wordRuns]. rewrite W. exact IH.
  - reflexivity.
Qed.

Lemma wordRuns_trimEnd (s : string) :
  forall g, wordRuns g (trimEnd s) = wordRuns g s.
Proof.
  induction s as [|c s IH]; intros g; [reflexivity|].
  cbn [trimEnd]. destruct (trimEnd s) as [|d t] eqn:T.
  - destruct (isWhiteSpace c) eqn:W; cbn [wordRuns]; rewrite W.
    + rewrite <- IH. reflexivity.
    + rewrite <- IH. reflexivity.
  - cbn [wordRuns]. destruct (isWhiteSpace c); rewrite <- IH; reflexivity.
Qed.

Lemma getWordCount_runs (text : string) : getWordCount text = wordRuns true text.
Proof.
  unfold getWordCount, trim.
  rewrite (proj2 (proj2 (split_runs _))), wordRuns_trimEnd.
  apply wordRuns_trimStart.
Qed.

Lemma wordRuns_app (a b : string) (c : ascii) :
  isWhiteSpace c = true ->
  forall g, wordRuns g (a ++ String c b) = wordRuns g a + wordRuns true b.
Proof.
  intros W. induction a as [|x a IH]; intros g.
  - cbn. rewrite W. reflexivity.
  - cbn [append wordRuns]. destruct (isWhiteSpace x); rewrite IH; lia.
Qed.

Lemma wordRuns_zero (s : string) :
  wordRuns true s = 0 <->
  forall x, In x (list_ascii_of_string s) -> isWhiteSpace x = true.
Proof.
  induction s as [|c s IH]; cbn [wordRuns list_ascii_of_string].
  - split; [intros _ x [] | reflexivity].
  - destruct (isWhiteSpace c) eqn:W.
    + rewrite IH. split.
      * intros H x [<-|Hin]; [exact W | apply H, Hin].
      * intros H x Hin. apply H. right. exact Hin.
    + split; [discriminate|]. intros H.
      specialize (H c (or_introl eq_refl)). congruence.
Qed.

(** X22: [getWordCount] counts the maximal runs of characters that are not
    white space: it is 0 exactly on a text of white space only (the empty
    text included), the leading and trailing white space that [trim] drops
    does not matter, and the count of two texts joined by a white-space
    character is the sum of their counts. *)
Theorem getWordCount_counts_runs (text a b : string) (c : ascii) :
  getWordCount text = wordRuns true text /\
  (getWordCount text = 0 <->
   forall x, In x (list_ascii_of_string text) -> isWhiteSpace x = true) /\
  getWordCount (trim text) = getWordCount text /\
  (isWhiteSpace c = true ->
   getWordCount (a ++ String c b) = getWordCount a + getWordCount b).
Proof.
  split; [apply getWordCount_runs|]. split; [|split].
  - rewrite getWordCount_runs. apply wordRuns_zero.
  - rewrite !getWordCount_runs. unfold trim.
    rewrite wordRuns_trimEnd. apply wordRuns_trimStart.
  - intros W. rewrite !getWordCount_runs. apply wordRuns_app, W.
Qed.

Lemma getWordCount_counts_runs_witness :
  getWordCount ("two words" ++ String LF "and three more")
  = getWordCount "two words" + getWordCount "and three more".
Proof.
  apply (getWordCount_counts_runs "" "two words" "and three more" LF).
  reflexivity.
Defined.

(** ** The download name *)

Lemma list_ascii_mapString (f : ascii -> ascii) (s : string) :
  list_ascii_of_string (mapString f s) = map f (list_ascii_of_string s).
Proof. induction s as [|c s IH]; simpl; [|rewrite IH]; reflexivity. Qed.

Lemma mapString_length (f : ascii -> ascii) (s : string) :
  String.length (mapString f s) = String.length s.
Proof. induction s as [|c s IH]; simpl; [|rewrite IH]; reflexivity. Qed.

Lemma mapString_ext (f g : ascii -> ascii) (s : string) :
  (forall c, In c (list_ascii_of_string s) -> f c = g c) ->
  mapString f s = mapString g s.
Proof.
  induction s as [|c s IH]; simpl; intros H; [reflexivity|].
  rewrite (H c) by (left; reflexivity). f_equal. apply IH.
  intros d Hd. apply H. right. exact Hd.
Qed.

Lemma mapString_id (s : string) : mapString (fun c => c) s = s.
Proof. induction s as [|c s IH]; simpl; [|rewrite IH]; reflexivity. Qed.

Lemma sanitized_char (c : ascii) :
  fileChar (lowerAscii (if isAlnum c then c else "_"%char)) = true.
Proof. destruct c as [[|] [|] [|] [|] [|] [|] [|] [|]]; reflexivity. Qed.

Lemma fileChar_fixed (c : ascii) :
  fileChar c = true -> lowerAscii (if isAlnum c then c else "_"%char) = c.
Proof.
  destruct c as [[|] [|] [|] [|] [|] [|] [|] [|]];
    intros H; try reflexivity; discriminate H.
Qed.

(** X24: the title part of a download name has as many characters as the
    title, all of them lower-case ASCII letters, digits or underscores; a
    title that is made of such characters only is kept as it is. The name
    is that part, a hyphen, the first ten characters of the ISO date and
    ".txt". *)
Theorem downloadName_safe (s : State) (iso : string) (a : Note.t) :
  activeNote s = Some a ->
  downloadName s iso
  = Some (sanitized (Note.title a) ++ "-" ++ substring 0 10 iso ++ ".txt")%string /\
  String.length (sanitized (Note.title a)) = String.length (Note.title a) /\
  (forall c, In c (list_ascii_of_string (sanitized (Note.title a))) ->
             fileChar c = true) /\
  ((forall c, In c (list_ascii_of_string (Note.title a)) -> fileChar c = true) ->
   sanitized (Note.title a) = Note.title a).
Proof.
  intros Ha. unfold downloadName. rewrite Ha. split; [reflexivity|].
  assert (E : forall t, sanitized t
              = mapString (fun c => lowerAscii (if isAlnum c then c else "_"%char)) t).
  { intros t. unfold sanitized, asciiLower.
    induction t as [|c t IH]; simpl; [|rewrite IH]; reflexivity. }
  rewrite !E. split; [apply mapString_length|]. split.
  - intros c Hin. rewrite list_ascii_mapString in Hin.
    apply in_map_iff in Hin. destruct Hin as (d & <- & _). apply sanitized_char.
  - intros H. rewrite (mapString_ext _ (fun c => c)).
    + apply mapString_id.
    + intros c Hc. apply fileChar_fixed, H, Hc.
Qed.

Lemma downloadName_safe_witness :
  downloadName withLocked "2024-05-06T10:11:12.000Z" = Some "one-2024-05-06.txt".
Proof.
  apply (downloadName_safe withLocked "2024-05-06T10:11:12.000Z"
           (plainNote "1" "one" "one" 1 [])).
  reflexivity.
Defined.

(** ** The lock and undo *)

Lemma undoIn_valid (r : State) (now : Z) (s : State) (a : Note.t)
    (u : list string) (x : string) :
  listens r s ->
  activeNote r = Some a ->
  Note.id a = activeNoteId r ->
  undoStack s = u ++ [x] ->
  exists s',
    handleUndoIn r now s = Done s' /\
    activeNote s' = Some (withContent now x a) /\
    undoStack s' = u /\
    redoStack s' = redoStack s ++ [Note.content a].
Proof.
  intros (Hi & Hu & _) Ha Hid Hs. unfold handleUndoIn.
  rewrite Ha, Hu, Hs, last_last, removelast_last.
  destruct (u ++ [x]) eqn:E; [exfalso; exact (snoc_not_nil _ _ E)|].
  eexists. split; [reflexivity|]. split; [|split; reflexivity].
  erewrite activeNote_replaced; [|exact Ha|reflexivity|symmetry; exact Hi].
  rewrite (isId_own r a Hid). reflexivity.
Qed.

Lemma redoIn_valid (r : State) (now : Z) (s : State) (a : Note.t)
    (u : list string) (x : string) :
  listens r s ->
  activeNote r = Some a ->
  Note.id a = activeNoteId r ->
  redoStack s = u ++ [x] ->
  exists s',
    handleRedoIn r now s = Done s' /\
    activeNote s' = Some (withContent now x a) /\
    redoStack s' = u /\
    undoStack s' = undoStack s ++ [Note.content a].
Proof.
  intros (Hi & _ & Hr) Ha Hid Hs. unfold handleRedoIn.
  rewrite Ha, Hr, Hs, last_last, removelast_last.
  destruct (u ++ [x]) eqn:E; [exfalso; exact (snoc_not_nil _ _ E)|].
  eexists. split; [reflexivity|]. split; [|split; reflexivity].
  erewrite activeNote_replaced; [|exact Ha|reflexivity|symmetry; exact Hi].
  rewrite (isId_own r a Hid). reflexivity.
Qed.

(** X25: no lock is checked by undo and redo. Run by the handler of a
    render [r] (the buttons: the current render; Ctrl+Z and Ctrl+Y: the
    render in which the key listener was registered) whose active pointer
    names a note, an undo on a non-empty undo stack and a redo on a
    non-empty redo stack complete and replace the content of the active
    note, which gets the lock fields it had in [r]. So with the buttons a
    locked note whose editor is disabled has its content replaced all the
    same and stays locked, and with the shortcut it comes back with the
    lock fields of [r]. *)
Theorem undo_redo_ignore_lock (r : State) (now : Z) (s : State) (a : Note.t) :
  listens r s ->
  activeNote r = Some a ->
  Note.id a = activeNoteId r ->
  (undoStack s <> [] ->
   exists s' a',
     handleUndoIn r now s = Done s' /\ activeNote s' = Some a' /\
     Note.content a' = last (undoStack s) "" /\
     Note.isLocked a' = Note.isLocked a /\ Note.password a' = Note.password a) /\
  (redoStack s <> [] ->
   exists s' a',
     handleRedoIn r now s = Done s' /\ activeNote s' = Some a' /\
     Note.content a' = last (redoStack s) "" /\
     Note.isLocked a' = Note.isLocked a /\ Note.password a' = Note.password a) /\
  (r = s -> Note.isLocked a = Some true ->
   Note.password a <> Some (password s) ->
   editorDisabled s = Some true /\
   handleUndoIn r now s = handleUndo now s /\
   handleRedoIn r now s = handleRedo now s).
Proof.
  intros L Ha Hid. split; [|split].
  - intros Hne. destruct (snoc_cases _ Hne) as (u & x & Hu).
    destruct (undoIn_valid r now s a u x L Ha Hid Hu) as (s' & E & Ha' & _).
    exists s', (withContent now x a). rewrite Hu, last_last.
    repeat split; assumption.
  - intros Hne. destruct (snoc_cases _ Hne) as (u & x & Hr).
    destruct (redoIn_valid r now s a u x L Ha Hid Hr) as (s' & E & Ha' & _).
    exists s', (withContent now x a). rewrite Hr, last_last.
    repeat split; assumption.
  - intros -> Hl Hp. split; [exact (editorDisabled_locked s a Ha Hl Hp)|].
    split; reflexivity.
Qed.

(** The Undo button on a locked active note with a wrong password in the
    box: the editor is disabled, the content is replaced and the note
    stays locked. Ctrl+Z by the handler of a render in which the note was
    not locked yet: the content is replaced and the note is unlocked
    again. *)
Lemma undo_redo_ignore_lock_witness :
  (editorDisabled lockedActive = Some true /\
   exists s' a',
     handleUndo 9 lockedActive = Done s' /\
     activeNote s' = Some a' /\
     Note.content a' = "old" /\
     Note.isLocked a' = Some true /\ Note.password a' = Some "secret")
  /\
  (listens beforeLock lockedActive /\
   exists s' a',
     handleUndoIn beforeLock 9 lockedActive = Done s' /\
     activeNote s' = Some a' /\
     Note.content a' = "old" /\
     Note.isLocked a' = None /\ Note.password a' = None).
Proof.
  split.
  - destruct (undo_redo_ignore_lock lockedActive 9 lockedActive lockedNote
                ltac:(repeat split) eq_refl eq_refl) as (Hu & _ & Hd).
    split; [exact (proj1 (Hd eq_refl eq_refl ltac:(discriminate)))|].
    apply Hu. discriminate.
  - split; [repeat split|].
    destruct (undo_redo_ignore_lock beforeLock 9 lockedActive
                (unlocked lockedNote) ltac:(repeat split) eq_refl eq_refl)
      as (Hu & _).
    apply Hu. discriminate.
Defined.
